(** * Country Currency & Exchange API: the refresh pipeline and its endpoints

    A shallow embedding of [src/controllers/country.controller.ts] and
    [src/routes/country.routes.ts], with the [Country] table of the
    migration as the store.

    Modelling conventions.
    - A JavaScript [number] that the program reads from outside (a
      population, a rate, a random draw) is a rational ([Q]).  The result
      of an arithmetic operation is the binary64 value of the exact
      result: rounded to nearest, ties to even, with gradual underflow,
      and infinite when it overflows ([binary64]).  The two zeros are not
      told apart; the program never divides by a zero.
    - A value that may be [null] or [undefined] is an [option]; truthiness
      tests ([x ? a : b], [x || null], [if (x)]) are written out.
    - A string is the sequence of the bytes of its UTF-8 encoding.
    - A JavaScript object used as a table is a [gmap] keyed by strings that
      holds the object's own properties; a key that the rates table does
      not own is looked up in [Object.prototype].
    - A [Date] is its number of milliseconds since the epoch ([Z]).
    - [Math.random()] is an explicit input: the draw of the [i]-th loop
      iteration is [random i]. *)

From Stdlib Require Import QArith ZArith String Ascii Lqa Qround Qpower.
From Stdlib.Strings Require Import Byte.
From stdpp Require Import gmap strings list sorting.

Open Scope string_scope.
Open Scope list_scope.

(** ** Upstream shapes *)

Module Raw.
Record currency := { code : string }.

Record country := {
  name : string;
  capital : option string;
  region : option string;
  population : Q;
  flag : option string;
  currencies : option (list currency);
}.
End Raw.

(** ** JavaScript values and arithmetic

    The values that the two numeric fields of a candidate can hold: a
    finite number, an infinity, [NaN], or a property inherited from
    [Object.prototype] (a function, or the prototype object itself for
    [__proto__]). *)

Inductive JsValue :=
  | Num (q : Q)
  | Infinity (negative : bool)
  | NaN
  | Inherited (key : string).

(** Rounding to the nearest integer, ties to even. *)
Definition round_half_even (y : Q) : Z :=
  let f := Qfloor y in
  match (y - inject_Z f ?= 1 # 2)%Q with
  | Lt => f
  | Gt => (f + 1)%Z
  | Eq => if Z.even f then f else (f + 1)%Z
  end.

(** The binary exponent of a positive rational:
    [2 ^ exponent a <= a < 2 ^ (exponent a + 1)]. *)
Definition exponent (a : Q) : Z :=
  let k := (Z.log2 (Qnum a) - Z.log2 (Zpos (Qden a)))%Z in
  if Qle_bool (2 ^ k) a then k else (k - 1)%Z.

(** Rounding to the nearest multiple of [2 ^ s]. *)
Definition round_at (s : Z) (x : Q) : Q :=
  (inject_Z (round_half_even (x / 2 ^ s)) * 2 ^ s)%Q.

(** The unit in the last place of binary64 at a positive [a]: 53
    significant bits, and never below the smallest subnormal. *)
Definition ulp_exponent (a : Q) : Z := Z.max (exponent a - 52) (-1074).

Definition round_finite (x : Q) : Q :=
  match Qnum x with
  | Z0 => 0
  | Zpos _ => round_at (ulp_exponent x) x
  | Zneg _ => - round_at (ulp_exponent (- x)) (- x)
  end.

(** The binary64 value of an exact result. *)
Definition binary64 (x : Q) : JsValue :=
  let r := round_finite x in
  if Qle_bool (2 ^ 1024) r then Infinity false
  else if Qle_bool r (- 2 ^ 1024) then Infinity true
  else Num r.

(** [ToNumber] of a function or of [Object.prototype] is [NaN]. *)
Definition to_number (v : JsValue) : JsValue :=
  match v with
  | Inherited _ => NaN
  | _ => v
  end.

Definition is_negative (q : Q) : bool := Z.ltb (Qnum q) 0.

Definition is_zero (q : Q) : bool := Z.eqb (Qnum q) 0.

(** [a * b] *)
Definition js_mul (a b : JsValue) : JsValue :=
  match to_number a, to_number b with
  | Num x, Num y => binary64 (x * y)
  | Num x, Infinity s | Infinity s, Num x =>
      if is_zero x then NaN else Infinity (xorb s (is_negative x))
  | Infinity s, Infinity t => Infinity (xorb s t)
  | _, _ => NaN
  end.

(** [a + b] *)
Definition js_add (a b : JsValue) : JsValue :=
  match to_number a, to_number b with
  | Num x, Num y => binary64 (x + y)
  | Num _, Infinity s | Infinity s, Num _ => Infinity s
  | Infinity s, Infinity t => if Bool.eqb s t then Infinity s else NaN
  | _, _ => NaN
  end.

(** [a / b] *)
Definition js_div (a b : JsValue) : JsValue :=
  match to_number a, to_number b with
  | Num x, Num y =>
      if is_zero y
      then if is_zero x then NaN else Infinity (is_negative x)
      else binary64 (x / y)
  | Num _, Infinity _ => Num 0
  | Infinity s, Num y => Infinity (xorb s (is_negative y))
  | _, _ => NaN
  end.

(** The order of the numbers among the values; [NaN] and the inherited
    properties compare with nothing. *)
Definition js_le (a b : JsValue) : Prop :=
  match a, b with
  | Num x, Num y => (x <= y)%Q
  | Infinity true, (Num _ | Infinity _) => True
  | (Num _ | Infinity _), Infinity false => True
  | _, _ => False
  end.

(** ** Truthiness *)

Definition truthy_string (s : string) : bool :=
  negb (String.eqb s EmptyString).

Definition truthy_opt (o : option string) : bool :=
  match o with
  | Some s => truthy_string s
  | None => false
  end.

Definition truthy_number (q : Q) : bool :=
  negb (Z.eqb (Qnum q) 0).

Definition truthy_value (v : JsValue) : bool :=
  match v with
  | Num q => truthy_number q
  | Infinity _ => true
  | NaN => false
  | Inherited _ => true
  end.

(** [x || null] on an optional string. *)
Definition or_null (o : option string) : option string :=
  if truthy_opt o then o else None.

(** ** The candidate row (lines 48-62) *)

Record ProcessedCountry := {
  name : string;
  capital : option string;
  region : option string;
  population : Q;
  currency_code : option string;
  exchange_rate : option JsValue;
  estimated_gdp : option JsValue;
  flag_url : option string;
}.

(** [country.currencies && country.currencies.length > 0
       ? country.currencies[0].code : null] *)
Definition currencyCode (country : Raw.country) : option string :=
  match Raw.currencies country with
  | Some (c :: _) => Some (Raw.code c)
  | _ => None
  end.

(** The names of the properties of [Object.prototype], which every plain
    object inherits. *)
Definition object_prototype_keys : list string :=
  [ "constructor"; "__defineGetter__"; "__defineSetter__"; "hasOwnProperty";
    "__lookupGetter__"; "__lookupSetter__"; "isPrototypeOf";
    "propertyIsEnumerable"; "toString"; "valueOf"; "__proto__";
    "toLocaleString" ].

Definition inherited (key : string) : bool :=
  bool_decide (key ∈ object_prototype_keys).

(** [exchangeRates[key]]: the table's own entry, else the property of that
    name that the table inherits, else [undefined]. *)
Definition property (exchangeRates : gmap string Q) (key : string)
    : option JsValue :=
  match exchangeRates !! key with
  | Some rate => Some (Num rate)
  | None => if inherited key then Some (Inherited key) else None
  end.

(** [currencyCode && exchangeRates[currencyCode]
       ? exchangeRates[currencyCode] : null] *)
Definition exchangeRate (exchangeRates : gmap string Q)
    (currencyCode : option string) : option JsValue :=
  match currencyCode with
  | Some c =>
      if truthy_string c then
        match property exchangeRates c with
        | Some v => if truthy_value v then Some v else None
        | None => None
        end
      else None
  | None => None
  end.

(** [Math.random() * 1000 + 1000] *)
Definition randomMultiplier (u : Q) : JsValue :=
  js_add (js_mul (Num u) (Num 1000)) (Num 1000).

(** [exchangeRate ? (country.population * randomMultiplier) / exchangeRate
                  : (currencyCode ? null : 0)] *)
Definition estimatedGdp (population : Q) (currencyCode : option string)
    (exchangeRate : option JsValue) (u : Q) : option JsValue :=
  match exchangeRate with
  | Some v =>
      if truthy_value v
      then Some (js_div (js_mul (Num population) (randomMultiplier u)) v)
      else if truthy_opt currencyCode then None else Some (Num 0)
  | None => if truthy_opt currencyCode then None else Some (Num 0)
  end.

Definition processCountry (exchangeRates : gmap string Q) (u : Q)
    (country : Raw.country) : ProcessedCountry :=
  let code := currencyCode country in
  let rate := exchangeRate exchangeRates code in
  {| name := Raw.name country;
     capital := or_null (Raw.capital country);
     region := or_null (Raw.region country);
     population := Raw.population country;
     currency_code := code;
     exchange_rate := rate;
     estimated_gdp := estimatedGdp (Raw.population country) code rate u;
     flag_url := or_null (Raw.flag country) |}.

(** ** The validation schema (lines 9-18)

    [parse] returns the issues of a candidate in the order zod reports
    them: the keys in the order of the schema, and for one key every failed
    check in the order the checks were chained; a value of the wrong type
    raises the type issue alone.  The keys typed [z.string().nullable()]
    accept every value this model can build, so they raise no issue. *)

Record ZodIssue := { path : string; message : string }.

Definition is_integer (q : Q) : bool :=
  Pos.eqb (Qden (Qred q)) 1.

Definition nonnegative (q : Q) : bool := Qle_bool 0 q.

Definition positive_number (q : Q) : bool := negb (Qle_bool q 0).

Definition issue_unless (ok : bool) (field msg : string) : list ZodIssue :=
  if ok then [] else [ {| path := field; message := msg |} ].

(** The name zod gives to the type of a value that is no number. *)
Definition received (v : JsValue) : string :=
  match v with
  | NaN => "nan"
  | Inherited key => if String.eqb key "__proto__" then "object" else "function"
  | _ => "number"
  end.

Definition expected_number (field : string) (v : JsValue) : list ZodIssue :=
  [ {| path := field;
       message := "Expected number, received " +:+ received v |} ].

(** [z.number().positive().nullable()] *)
Definition positive_issues (field : string) (o : option JsValue)
    : list ZodIssue :=
  match o with
  | None => []
  | Some (Num r) =>
      issue_unless (positive_number r) field "Number must be greater than 0"
  | Some (Infinity negative) =>
      issue_unless (negb negative) field "Number must be greater than 0"
  | Some v => expected_number field v
  end.

(** [z.number().nullable()] *)
Definition number_issues (field : string) (o : option JsValue)
    : list ZodIssue :=
  match o with
  | None | Some (Num _) | Some (Infinity _) => []
  | Some v => expected_number field v
  end.

Definition parse (p : ProcessedCountry) : list ZodIssue :=
  issue_unless (Nat.leb 1 (String.length (name p)))
        "name" "String must contain at least 1 character(s)"
  ++ issue_unless (is_integer (population p))
        "population" "Expected integer, received float"
  ++ issue_unless (nonnegative (population p))
        "population" "Number must be greater than or equal to 0"
  ++ positive_issues "exchange_rate" (exchange_rate p)
  ++ number_issues "estimated_gdp" (estimated_gdp p).

(** The values that are numbers. *)
Definition is_number (v : JsValue) : Prop :=
  match v with
  | Num _ | Infinity _ => True
  | _ => False
  end.

Definition positive_value (v : JsValue) : Prop :=
  match v with
  | Num r => (0 < r)%Q
  | Infinity negative => negative = false
  | _ => False
  end.

(** What the schema asks of a candidate: a non-empty name, a population
    that is a non-negative integer, an exchange rate that is a positive
    number or absent, and an estimate that is a number or absent. *)
Definition valid_candidate (p : ProcessedCountry) : Prop :=
  name p <> EmptyString
  /\ (exists n : Z, (0 <= n)%Z /\ (population p == inject_Z n)%Q)
  /\ (forall v, exchange_rate p = Some v -> positive_value v)
  /\ (forall v, estimated_gdp p = Some v -> is_number v).

(** [validationError.errors.forEach(err => details[err.path[0]] = err.message)] *)
Definition details_of (issues : list ZodIssue) : gmap string string :=
  foldl (fun details err => <[path err := message err]> details) ∅ issues.

(** ** The [Country] table

    A row is a candidate with the surrogate key and the refresh stamp.
    The table keeps its rows in insertion order and remembers the next
    [AUTO_INCREMENT] value. *)

Record CountryCreateManyInput := {
  data_fields : ProcessedCountry;
  data_last_refreshed_at : Z;
}.

Record Country := {
  id : Z;
  fields : ProcessedCountry;
  last_refreshed_at : Z;
}.

Record Store := {
  rows : list Country;
  next_id : Z;
}.

Definition empty_store : Store := {| rows := []; next_id := 1 |}.

(** SQL [LOWER] on the ASCII letters. *)
Definition lower_ascii (c : ascii) : ascii :=
  let n := nat_of_ascii c in
  if (Nat.leb 65 n && Nat.leb n 90)%bool then ascii_of_nat (n + 32) else c.

Fixpoint lower (s : string) : string :=
  match s with
  | EmptyString => EmptyString
  | String c rest => String (lower_ascii c) (lower rest)
  end.

Inductive Direction := Asc | Desc.

Inductive OrderBy :=
  | ByName (d : Direction)
  | ByEstimatedGdp (d : Direction)
  | ByLastRefreshedAt (d : Direction).

(** The place of a column value in the ascending order of the engine:
    [NULL] before every value, then the numbers by value.  The class comes
    first, then the value within the class of the finite numbers. *)
Definition gdp_rank (o : option JsValue) : Z * Q :=
  match o with
  | None => (0%Z, 0%Q)
  | Some (Infinity true) => (2%Z, 0%Q)
  | Some (Num q) => (3%Z, q)
  | Some (Infinity false) => (4%Z, 0%Q)
  | Some _ => (1%Z, 0%Q)
  end.

Definition gdp_leb (a b : option JsValue) : bool :=
  let (ca, qa) := gdp_rank a in
  let (cb, qb) := gdp_rank b in
  (Z.ltb ca cb || (Z.eqb ca cb && Qle_bool qa qb))%bool.

Definition directed {A} (d : Direction) (leb : A -> A -> bool) (a b : A) : bool :=
  match d with
  | Asc => leb a b
  | Desc => leb b a
  end.

(** ** Requests, responses and the process state *)

Inductive Body :=
  | JsonError (error : string)
  | JsonErrorDetails (error details : string)
  | JsonValidation (error country : string) (details : gmap string string)
  | JsonMessage (message : string)
  | JsonCountries (countries : list Country)
  | JsonCountry (country : Country)
  | JsonStatus (total_countries : nat) (last_refreshed : option Z)
  | SentFile (content : list byte)
  | ErrorPage
  | NoBody.

Record Response := { status : nat; body : Body }.

Definition Files := gmap string (list byte).

Record World := {
  db : Store;
  files : Files;
  cwd : string;
}.

Definition with_db (w : World) (s : Store) : World :=
  {| db := s; files := files w; cwd := cwd w |}.

Definition with_files (w : World) (f : Files) : World :=
  {| db := db w; files := f; cwd := cwd w |}.

(** What one refresh cycle reads from outside the process: the results of
    the two fetches ([None] when a fetch reports no data), the clock and
    the random draws. *)
Record Upstream := {
  fetchCountries : option (list Raw.country);
  fetchExchangeRates : option (gmap string Q);
  now : Z;
  random : nat -> Q;
}.

(** The methods that the router registers.  A request has no body, so the
    body parsers of [src/index.ts] pass it on unchanged. *)
Inductive Method := GET | POST | DELETE.

(** A value of [req.query]: a string, or the array or object that the
    query parser builds for a parameter that is repeated or written with
    brackets. *)
Inductive QueryValue :=
  | QString (s : string)
  | QNested.

(** [url] is the path of the request, without the query string. *)
Record Request := {
  method : Method;
  url : string;
  query : gmap string QueryValue;
}.

(** ** Paths *)

Fixpoint split_slash (s cur : string) : list string :=
  match s with
  | EmptyString => [cur]
  | String c rest =>
      if Ascii.eqb c "/"%char
      then cur :: split_slash rest EmptyString
      else split_slash rest (cur +:+ String c EmptyString)
  end.

Fixpoint ends_with_slash (s : string) : bool :=
  match s with
  | EmptyString => false
  | String c EmptyString => Ascii.eqb c "/"%char
  | String _ rest => ends_with_slash rest
  end.

Definition starts_with_slash (s : string) : bool :=
  match s with
  | String c _ => Ascii.eqb c "/"%char
  | EmptyString => false
  end.

(** [normalizeString] of Node's [path]: the segments of the normal form,
    innermost last in [res]. *)
Definition normalize_step (allowAboveRoot : bool) (res : list string)
    (segment : string) : list string :=
  if (String.eqb segment EmptyString || String.eqb segment ".")%bool then res
  else if String.eqb segment ".." then
    match res with
    | last :: res' =>
        if String.eqb last ".."
        then (if allowAboveRoot then ".." :: res else res)
        else res'
    | [] => if allowAboveRoot then [".."] else []
    end
  else segment :: res.

Definition normalizeString (path : string) (allowAboveRoot : bool) : string :=
  String.concat "/"
    (rev (fold_left (normalize_step allowAboveRoot)
            (split_slash path EmptyString) [])).

(** [path.normalize] (POSIX) *)
Definition normalize (path : string) : string :=
  if String.eqb path EmptyString then "."
  else
    let isAbsolute := starts_with_slash path in
    let trailingSeparator := ends_with_slash path in
    let inner := normalizeString path (negb isAbsolute) in
    if String.eqb inner EmptyString then
      if isAbsolute then "/" else if trailingSeparator then "./" else "."
    else
      (if isAbsolute then "/" else EmptyString)
      +:+ inner +:+ (if trailingSeparator then "/" else EmptyString).

(** [path.join] (POSIX) *)
Definition path_join (parts : list string) : string :=
  let joined := String.concat "/" (List.filter truthy_string parts) in
  if String.eqb joined EmptyString then "." else normalize joined.

(** ** [decodeURIComponent]

    A string is read as a sequence of literal characters and of octets
    written as percent escapes; an escaped octet above 127 must start a
    well-formed UTF-8 sequence whose other octets are escaped too.  [None]
    stands for the [URIError]. *)

Inductive UriUnit :=
  | Literal (c : ascii)
  | Escaped (octet : N).

Definition hex_digit (c : ascii) : option N :=
  let n := N_of_ascii c in
  if (N.leb 48 n && N.leb n 57)%bool then Some (n - 48)%N
  else if (N.leb 65 n && N.leb n 70)%bool then Some (n - 55)%N
  else if (N.leb 97 n && N.leb n 102)%bool then Some (n - 87)%N
  else None.

Fixpoint escapes (s : string) : option (list UriUnit) :=
  match s with
  | EmptyString => Some []
  | String c rest =>
      if Ascii.eqb c "%"%char then
        match rest with
        | String h (String l rest') =>
            match hex_digit h, hex_digit l with
            | Some a, Some b => cons (Escaped (16 * a + b)) <$> escapes rest'
            | _, _ => None
            end
        | _ => None
        end
      else cons (Literal c) <$> escapes rest
  end.

Definition between (lo hi b : N) : bool := (N.leb lo b && N.leb b hi)%bool.

Definition continuation (b : N) : bool := between 128 191 b.

(** The range of the second octet of a sequence, which excludes the
    overlong forms, the surrogates and the code points above [10FFFF]. *)
Definition second_octet (lead b : N) : bool :=
  if N.eqb lead 224 then between 160 191 b
  else if N.eqb lead 237 then between 128 159 b
  else if N.eqb lead 240 then between 144 191 b
  else if N.eqb lead 244 then between 128 143 b
  else continuation b.

Fixpoint octets (l : list N) (rest : string) : string :=
  match l with
  | [] => rest
  | b :: l' => String (ascii_of_N b) (octets l' rest)
  end.

Fixpoint utf8 (us : list UriUnit) : option string :=
  match us with
  | [] => Some EmptyString
  | Literal c :: us' => String c <$> utf8 us'
  | Escaped b :: us' =>
      if N.ltb b 128 then octets [b] <$> utf8 us'
      else if between 194 223 b then
        match us' with
        | Escaped b1 :: us'' =>
            if continuation b1 then octets [b; b1] <$> utf8 us'' else None
        | _ => None
        end
      else if between 224 239 b then
        match us' with
        | Escaped b1 :: Escaped b2 :: us'' =>
            if (second_octet b b1 && continuation b2)%bool
            then octets [b; b1; b2] <$> utf8 us''
            else None
        | _ => None
        end
      else if between 240 244 b then
        match us' with
        | Escaped b1 :: Escaped b2 :: Escaped b3 :: us'' =>
            if (second_octet b b1 && continuation b2 && continuation b3)%bool
            then octets [b; b1; b2; b3] <$> utf8 us''
            else None
        | _ => None
        end
      else None
  end.

Definition decodeURIComponent (s : string) : option string :=
  escapes s ≫= utf8.

(** ** The router ([src/routes/country.routes.ts])

    Express tries the routes in the order they were registered.  A route's
    pattern is matched against the path segment by segment: a segment of
    the pattern that starts with a colon takes any non-empty segment and
    binds it, the other segments are compared without regard to case, and
    one slash at the end of the path is overlooked.  The bound segments
    are then percent-decoded; when that fails the request is answered with
    an error and no later route is tried.  The handler of the first
    matching route that is registered for the request's method runs; none
    of the handlers passes control on. *)

Inductive Handler :=
  | RefreshCountries
  | GetCountries
  | GetCountry
  | DeleteCountry
  | GetStatus
  | GetImage.

Definition router : list (Method * string * Handler) :=
  [ (POST, "/countries/refresh", RefreshCountries);
    (GET, "/countries", GetCountries);
    (GET, "/countries/:name", GetCountry);
    (DELETE, "/countries/:name", DeleteCountry);
    (GET, "/status", GetStatus);
    (GET, "/countries/image", GetImage) ].

Definition method_eqb (a b : Method) : bool :=
  match a, b with
  | GET, GET | POST, POST | DELETE, DELETE => true
  | _, _ => false
  end.

(** The pieces between the slashes of a path, the first of which is the
    empty piece before the leading slash; an empty piece at the end is
    dropped. *)
Fixpoint drop_last_empty (pieces : list string) : list string :=
  match pieces with
  | [] => []
  | [p] => if String.eqb p EmptyString then [] else [p]
  | p :: rest => p :: drop_last_empty rest
  end.

Definition segments (s : string) : list string :=
  match split_slash s EmptyString with
  | first :: rest => first :: drop_last_empty rest
  | [] => []
  end.

(** A name that fits in one path segment. *)
Fixpoint no_slash (s : string) : bool :=
  match s with
  | EmptyString => true
  | String c rest => (negb (Ascii.eqb c "/"%char) && no_slash rest)%bool
  end.

Fixpoint match_segments (pattern path : list string)
    : option (gmap string string) :=
  match pattern, path with
  | [], [] => Some ∅
  | String ":" param :: pattern', value :: path' =>
      if truthy_string value
      then insert param value <$> match_segments pattern' path'
      else None
  | literal :: pattern', value :: path' =>
      if String.eqb (lower literal) (lower value)
      then match_segments pattern' path'
      else None
  | _, _ => None
  end.

(** [decode_param] on every bound segment. *)
Definition decode_params (raw : gmap string string)
    : option (gmap string string) :=
  if bool_decide (map_Forall (fun _ v => is_Some (decodeURIComponent v)) raw)
  then Some (omap decodeURIComponent raw)
  else None.

Inductive Routing :=
  | Routed (h : Handler) (params : gmap string string)
  | BadParam
  | Unrouted.

Fixpoint resolve (routes : list (Method * string * Handler)) (req : Request)
    : Routing :=
  match routes with
  | [] => Unrouted
  | (m, pattern, h) :: routes' =>
      match match_segments (segments pattern) (segments (url req)) with
      | Some raw =>
          match decode_params raw with
          | Some params =>
              if method_eqb m (method req)
              then Routed h params
              else resolve routes' req
          | None => BadParam
          end
      | None => resolve routes' req
      end
  end.

(** The handler that a request is handed to, with [req.params]. *)
Definition dispatch (routes : list (Method * string * Handler)) (req : Request)
    : option (Handler * gmap string string) :=
  match resolve routes req with
  | Routed h params => Some (h, params)
  | _ => None
  end.

Definition json (st : nat) (b : Body) : Response :=
  {| status := st; body := b |}.

Definition internal_server_error : Response :=
  json 500 (JsonError "Internal server error").

Definition country_not_found : Response :=
  json 404 (JsonError "Country not found").

(** What Express answers by itself when a parameter cannot be decoded. *)
Definition bad_request : Response :=
  {| status := 400; body := ErrorPage |}.

(** ** The engine and the Prisma client

    The table is created with [COLLATE utf8mb4_unicode_ci], so the engine
    compares and orders its strings by collation weights; [ckey s] stands
    for the weight string of [s].  [accepts d] tells whether the client and
    the engine take the values of [d] for the column types of the migration
    ([VARCHAR(191)], [INTEGER], [DOUBLE]).  The summary image is rendered
    by [generateSummaryImage] of [utils/country.utils]: it maps the files
    on disk to the files afterwards and tells whether it returned
    ([true]) or threw ([false]). *)

Section Engine.
Variable ckey : string -> string.
Variable accepts : CountryCreateManyInput -> bool.
Variable generateSummaryImage :
  nat -> list (string * option JsValue) -> Z -> Files -> Files * bool.

Definition sql_eq (a b : string) : bool := String.eqb (ckey a) (ckey b).

Definition sql_leb (a b : string) : bool := String.leb (ckey a) (ckey b).

Definition order_leb (o : OrderBy) (a b : Country) : bool :=
  match o with
  | ByName d =>
      directed d sql_leb (name (fields a)) (name (fields b))
  | ByEstimatedGdp d =>
      directed d gdp_leb (estimated_gdp (fields a)) (estimated_gdp (fields b))
  | ByLastRefreshedAt d =>
      directed d Z.leb (last_refreshed_at a) (last_refreshed_at b)
  end.

Definition ordered (o : OrderBy) : relation Country :=
  fun a b => order_leb o a b = true.

#[local] Instance ordered_dec o a b : Decision (ordered o a b).
Proof. unfold ordered. apply _. Defined.

Definition order_rows (o : OrderBy) (l : list Country) : list Country :=
  merge_sort (ordered o) l.

Definition name_keys (l : list Country) : list string :=
  map (fun r => ckey (name (fields r))) l.

(** The unique index [Country_name_key]. *)
Definition unique_names (s : Store) : Prop := NoDup (name_keys (rows s)).

Fixpoint number_rows (n : Z) (data : list CountryCreateManyInput)
    : list Country :=
  match data with
  | [] => []
  | d :: rest =>
      {| id := n;
         fields := data_fields d;
         last_refreshed_at := data_last_refreshed_at d |}
      :: number_rows (n + 1) rest
  end.

(** [prisma.country.deleteMany()] *)
Definition deleteMany (s : Store) : option Store :=
  Some {| rows := []; next_id := next_id s |}.

(** [prisma.country.createMany({ data })]: the statement fails as a whole
    when a value does not fit its column or the unique index is hit. *)
Definition createMany (data : list CountryCreateManyInput) (s : Store)
    : option Store :=
  let rows' := rows s ++ number_rows (next_id s) data in
  if (forallb accepts data && bool_decide (NoDup (name_keys rows')))%bool
  then Some {| rows := rows';
               next_id := next_id s + Z.of_nat (length data) |}
  else None.

(** [prisma.$transaction([...])]: the statements run in order on the
    transaction's own state; [Some] is the committed state, [None] means
    a statement failed, the transaction was rolled back and the call
    throws. *)
Definition transaction (ops : list (Store -> option Store)) (s : Store)
    : option Store :=
  foldl (fun acc op => acc ≫= op) (Some s) ops.

(** [prisma.country.count()] *)
Definition count (s : Store) : nat := length (rows s).

(** [prisma.country.findMany({ where, orderBy })] *)
Definition findMany (where_ : Country -> bool) (orderBy : OrderBy)
    (s : Store) : list Country :=
  order_rows orderBy (List.filter where_ (rows s)).

(** [prisma.country.findFirst({ orderBy })] *)
Definition findFirst (orderBy : OrderBy) (s : Store) : option Country :=
  head (order_rows orderBy (rows s)).

(** [SELECT * FROM Country WHERE LOWER(name) = LOWER(${name}) LIMIT 1] *)
Definition selectByLowerName (n : string) (s : Store) : list Country :=
  take 1 (List.filter
            (fun r => sql_eq (lower (name (fields r))) (lower n))
            (rows s)).

(** [prisma.country.delete({ where: { name } })]: throws when no row has
    the name. *)
Definition deleteWhereName (n : string) (s : Store) : option Store :=
  if existsb (fun r => sql_eq (name (fields r)) n) (rows s)
  then Some {| rows := List.filter
                         (fun r => negb (sql_eq (name (fields r)) n))
                         (rows s);
               next_id := next_id s |}
  else None.

(** ** The controllers ([src/controllers/country.controller.ts]) *)

(** The loop of lines 46-86: [inl] is the response of the [return] inside
    the [catch], [inr] the finished [countriesToUpsert]. *)
Fixpoint processCountries (exchangeRates : gmap string Q) (now : Z)
    (random : nat -> Q) (i : nat) (countriesData : list Raw.country)
    (countriesToUpsert : list CountryCreateManyInput)
    : Response + list CountryCreateManyInput :=
  match countriesData with
  | [] => inr countriesToUpsert
  | country :: rest =>
      let processedCountry := processCountry exchangeRates (random i) country in
      match parse processedCountry with
      | [] =>
          processCountries exchangeRates now random (S i) rest
            (countriesToUpsert ++
               [ {| data_fields := processedCountry;
                    data_last_refreshed_at := now |} ])
      | issues =>
          inl (json 400 (JsonValidation "Validation failed for country data"
                           (Raw.name country) (details_of issues)))
      end
  end.

(** The candidates of a cycle in the order of the fetched list: the country
    at position [i] is processed with the draw [random i] and stamped with
    the cycle's [now]. *)
Fixpoint candidates (exchangeRates : gmap string Q) (now : Z)
    (random : nat -> Q) (i : nat) (countriesData : list Raw.country)
    : list CountryCreateManyInput :=
  match countriesData with
  | [] => []
  | country :: rest =>
      {| data_fields := processCountry exchangeRates (random i) country;
         data_last_refreshed_at := now |}
      :: candidates exchangeRates now random (S i) rest
  end.

Definition has_gdp (r : Country) : bool :=
  match estimated_gdp (fields r) with
  | Some _ => true
  | None => false
  end.

Definition top5Gdp (s : Store) : list (string * option JsValue) :=
  map (fun r => (name (fields r), estimated_gdp (fields r)))
      (take 5 (findMany has_gdp (ByEstimatedGdp Desc) s)).

Definition refreshCountries (up : Upstream) (w : World) : Response * World :=
  match fetchCountries up with
  | None =>
      (json 503 (JsonErrorDetails "External data source unavailable"
         "Could not fetch data from https://restcountries.com/v2/all?fields=name,capital,region,population,flag,currencies"),
       w)
  | Some countriesData =>
      match fetchExchangeRates up with
      | None =>
          (json 503 (JsonErrorDetails "External data source unavailable"
             "Could not fetch data from https://open.er-api.com/v6/latest/USD"),
           w)
      | Some exchangeRates =>
          match processCountries exchangeRates (now up) (random up) 0
                  countriesData [] with
          | inl response => (response, w)
          | inr countriesToUpsert =>
              match transaction [deleteMany; createMany countriesToUpsert]
                      (db w) with
              | None => (internal_server_error, w)
              | Some committed =>
                  let w' := with_db w committed in
                  let totalCountries := count committed in
                  let (files', returned) :=
                    generateSummaryImage totalCountries (top5Gdp committed)
                      (now up) (files w') in
                  if returned
                  then (json 200 (JsonMessage "Countries refreshed successfully"),
                        with_files w' files')
                  else (internal_server_error, with_files w' files')
              end
          end
      end
  end.

(** [where.region = { equals: region }]: a [NULL] column equals nothing. *)
Definition equals (column : option string) (value : string) : bool :=
  match column with
  | Some c => sql_eq c value
  | None => false
  end.

Definition where_of (region_q currency_q : option string) (r : Country) : bool :=
  ((if truthy_opt region_q
    then equals (region (fields r)) (default EmptyString region_q)
    else true)
   && (if truthy_opt currency_q
       then equals (currency_code (fields r)) (default EmptyString currency_q)
       else true))%bool.

(** [if (region) where.region = { equals: region }]: the value that ends
    up in the [where] clause.  A value that is no string is truthy and is
    passed on to the client, which refuses it for a string column:
    [findMany] throws. *)
Definition filter_value (v : option QueryValue) : option (option string) :=
  match v with
  | None => Some None
  | Some (QString s) => Some (Some s)
  | Some QNested => None
  end.

(** [v === s] for a string literal [s]. *)
Definition strict_equal (v : option QueryValue) (s : string) : bool :=
  match v with
  | Some (QString s') => String.eqb s' s
  | _ => false
  end.

(** The array [orderBy] of lines 123-129 ends up with exactly one entry. *)
Definition orderBy_of (sort : option QueryValue) : OrderBy :=
  if strict_equal sort "gdp_desc" then ByEstimatedGdp Desc
  else if strict_equal sort "gdp_asc" then ByEstimatedGdp Asc
  else ByName Asc.

Definition getCountries (req : Request) (w : World) : Response :=
  let region_q := query req !! "region" in
  let currency_q := query req !! "currency" in
  let sort := query req !! "sort" in
  match filter_value region_q, filter_value currency_q with
  | Some region_s, Some currency_s =>
      json 200 (JsonCountries
                  (findMany (where_of region_s currency_s) (orderBy_of sort)
                     (db w)))
  | _, _ => internal_server_error
  end.

Definition getCountry (name_p : string) (w : World) : Response :=
  match selectByLowerName name_p (db w) with
  | [] => country_not_found
  | country :: _ => json 200 (JsonCountry country)
  end.

Definition deleteCountry (name_p : string) (w : World) : Response * World :=
  match selectByLowerName name_p (db w) with
  | [] => (country_not_found, w)
  | country :: _ =>
      match deleteWhereName (name (fields country)) (db w) with
      | Some s => (json 204 NoBody, with_db w s)
      | None => (internal_server_error, w)
      end
  end.

Definition getStatus (w : World) : Response :=
  let totalCountries := count (db w) in
  let last := findFirst (ByLastRefreshedAt Desc) (db w) in
  json 200 (JsonStatus totalCountries (last_refreshed_at <$> last)).

Definition tmpImagePath : string :=
  path_join ["/tmp"; "country-api-summary.png"].

Definition cacheImagePath (w : World) : string :=
  path_join [cwd w; "cache"; "summary.png"].

Definition getImage (w : World) : Response :=
  match files w !! tmpImagePath with
  | Some content => json 200 (SentFile content)
  | None =>
      match files w !! cacheImagePath w with
      | Some content => json 200 (SentFile content)
      | None => json 404 (JsonError "Summary image not found")
      end
  end.

(** The application: the router, then the handler for unmatched requests
    of [src/index.ts]. *)
Definition app (up : Upstream) (req : Request) (w : World) : Response * World :=
  match resolve router req with
  | Routed RefreshCountries _ => refreshCountries up w
  | Routed GetCountries _ => (getCountries req w, w)
  | Routed GetCountry params =>
      (getCountry (default EmptyString (params !! "name")) w, w)
  | Routed DeleteCountry params =>
      deleteCountry (default EmptyString (params !! "name")) w
  | Routed GetStatus _ => (getStatus w, w)
  | Routed GetImage _ => (getImage w, w)
  | BadParam => (bad_request, w)
  | Unrouted =>
      (json 404 (JsonError ("Route " +:+ url req +:+ " not found")), w)
  end.

(** ** The claims of the specification that the code does not meet as
    written, stated as they are written *)


(** The treatment of a zero rate as the specification words it. *)
Definition zero_rate_as_specified (rates : gmap string Q) (u : Q)
    (country : Raw.country) : Prop :=
  let p := processCountry rates u country in
  forall c r, currencyCode country = Some c -> rates !! c = Some r ->
    (r == 0)%Q ->
    exchange_rate p = None /\ estimated_gdp p = None.

(** The lookup as the specification words it, for one requested name: a
    name that matches no row without regard to case is answered with 404.
    [e] is the segment of the path and [n] the name it stands for. *)
Definition lookup_as_specified (up : Upstream) (w : World) (e n : string)
    : Prop :=
  decodeURIComponent e = Some n ->
  (forall r, r ∈ rows (db w) -> lower (name (fields r)) <> lower n) ->
  status (app up {| method := GET; url := "/countries/" +:+ e; query := ∅ |}
            w).1 = 404.

(** The listing as the specification words it, for one region: every
    listed row matches the filter that is given. *)
Definition list_as_specified (up : Upstream) (w : World) (v : string) : Prop :=
  forall (l : list Country) (r : Country),
    (app up {| method := GET; url := "/countries";
               query := {[ "region" := QString v ]} |} w).1
    = json 200 (JsonCountries l) ->
    r ∈ l ->
    exists c, region (fields r) = Some c /\ ckey c = ckey v.

(** What the listing does ask of a row: each filter that is given as a
    non-empty string holds of the row's column, under the comparison of
    the engine. *)
Definition matches_filter (value : option QueryValue) (column : option string)
    : Prop :=
  forall v, value = Some (QString v) -> v <> EmptyString ->
  exists c, column = Some c /\ ckey c = ckey v.

Definition row_matches (q : gmap string QueryValue) (r : Country) : Prop :=
  matches_filter (q !! "region") (region (fields r))
  /\ matches_filter (q !! "currency") (currency_code (fields r)).

(** The ascending order of the column [estimated_gdp] on two values:
    [NULL] comes before every value, and numbers come by value. *)
Definition gdp_before (a b : option JsValue) : Prop :=
  (b = None -> a = None)
  /\ (forall x y, a = Some x -> b = Some y -> is_number x -> is_number y ->
      js_le x y).

(** [in_order R l]: whenever [a] comes before [b] in [l], [R a b]. *)
Definition in_order {A} (R : A -> A -> Prop) (l : list A) : Prop :=
  forall (i j : nat) (a b : A),
    (i < j)%nat -> l !! i = Some a -> l !! j = Some b -> R a b.

(** ** Sample data *)

Definition sample_rates : gmap string Q :=
  {[ "NGN" := 1600%Q; "NOK" := 10%Q; "ZZZ" := 0%Q; "USD" := 1%Q ]}.

Definition sample_country (n : string) (pop : Q) (codes : option (list string))
    : Raw.country :=
  {| Raw.name := n;
     Raw.capital := None;
     Raw.region := Some "Africa";
     Raw.population := pop;
     Raw.flag := None;
     Raw.currencies := map (fun c => {| Raw.code := c |}) <$> codes |}.

Definition nigeria : Raw.country :=
  sample_country "Nigeria" 206139589%Q (Some ["NGN"]).

Definition ghana : Raw.country :=
  sample_country "Ghana" 31072940%Q (Some ["GHS"]).


Definition blank_code_land : Raw.country :=
  sample_country "Blank" 5%Q (Some [EmptyString]).

Definition zero_rate_land : Raw.country :=
  sample_country "Zed" 7%Q (Some ["ZZZ"]).

Definition negative_land : Raw.country :=
  sample_country "Minus" (-1)%Q None.

(** A country whose currency code is the name of a property that every
    object inherits. *)
Definition constructor_land : Raw.country :=
  sample_country "Inherit" 5%Q (Some ["constructor"]).



Definition sample_now : Z := 1761156000000.

Definition sample_upstream (cs : list Raw.country) : Upstream :=
  {| fetchCountries := Some cs;
     fetchExchangeRates := Some sample_rates;
     now := sample_now;
     random := fun _ => (1 # 2)%Q |}.

Definition fresh_world : World :=
  {| db := empty_store; files := ∅; cwd := "/app" |}.

Definition ascii_collation : string -> string := lower.

(** [rtrim s] is [s] without the spaces at its end. *)
Fixpoint rtrim (s : string) : string :=
  match s with
  | EmptyString => EmptyString
  | String c rest =>
      let rest' := rtrim rest in
      if (Ascii.eqb c " "%char && String.eqb rest' EmptyString)%bool
      then EmptyString
      else String c rest'
  end.

(** The weights of [utf8mb4_unicode_ci] on strings of ASCII letters and
    spaces: the collation ignores case and, being [PAD SPACE], the spaces
    at the end. *)
Definition pad_space_collation (s : string) : string := lower (rtrim s).

Definition accept_all (d : CountryCreateManyInput) : bool := true.

Definition png_signature : list byte := [x89; x50; x4e; x47].

(** Modelled from the spec: [generateSummaryImage] of [utils/country.utils]
    is not among the sources; the specification has the renderer write the
    image to a well-known location.  This sample renderer writes it to the
    primary location that [getImage] reads. *)
Definition render_to_tmp (total : nat) (top5 : list (string * option JsValue))
    (asOf : Z) (f : Files) : Files * bool :=
  (<[tmpImagePath := png_signature]> f, true).

Definition blank_rates : gmap string Q := {[ EmptyString := 0%Q ]}.

Definition nigeria_row : Country :=
  {| id := 1;
     fields := processCountry sample_rates (1 # 2)%Q nigeria;
     last_refreshed_at := sample_now |}.

Definition ghana_row : Country :=
  {| id := 2;
     fields := processCountry sample_rates (1 # 2)%Q ghana;
     last_refreshed_at := sample_now |}.

(** The state after one refresh of [nigeria] and [ghana] from
    [fresh_world] with the sample renderer. *)
Definition stocked_world : World :=
  {| db := {| rows := [nigeria_row; ghana_row]; next_id := 3 |};
     files := {[ tmpImagePath := png_signature ]};
     cwd := "/app" |}.

Definition get_request (u : string) (q : gmap string QueryValue) : Request :=
  {| method := GET; url := u; query := q |}.

(** ** Notions used by the further properties *)

(** The table right after a replace-all of [data] on top of [s]: the rows
    of [data] numbered from the next key of [s]. *)
Definition replaced (s : Store) (data : list CountryCreateManyInput) : Store :=
  {| rows := number_rows (next_id s) data;
     next_id := next_id s + Z.of_nat (length data) |}.

(** Every row of the table passes the schema. *)
Definition rows_valid (s : Store) : Prop :=
  Forall (fun r => valid_candidate (fields r)) (rows s).

(** The primary key: the keys of the rows are pairwise different and below
    the next key to be given out. *)
Definition ids_fresh (s : Store) : Prop :=
  NoDup (map id (rows s)) /\ Forall (fun r => (id r < next_id s)%Z) (rows s).

(** A renderer that throws without touching the disk. *)
Definition render_fails (total : nat) (top5 : list (string * option JsValue))
    (asOf : Z) (f : Files) : Files * bool :=
  (f, false).

(** The routing in closed form, from the method and the segments of the
    path: what the router does with a request. *)
Definition route_of (req : Request) : Routing :=
  match segments (url req) with
  | [e; a] =>
      if (String.eqb e EmptyString && method_eqb GET (method req))%bool then
        if String.eqb "countries" (lower a) then Routed GetCountries ∅
        else if String.eqb "status" (lower a) then Routed GetStatus ∅
        else Unrouted
      else Unrouted
  | [e; a; b] =>
      if (String.eqb e EmptyString && String.eqb "countries" (lower a))%bool
      then
        if (method_eqb POST (method req) && String.eqb "refresh" (lower b))%bool
        then Routed RefreshCountries ∅
        else if truthy_string b then
          match decodeURIComponent b with
          | None => BadParam
          | Some n =>
              match method req with
              | GET => Routed GetCountry {[ "name" := n ]}
              | DELETE => Routed DeleteCountry {[ "name" := n ]}
              | POST => Unrouted
              end
          end
        else Unrouted
      else Unrouted
  | _ => Unrouted
  end.

Definition shouting_nigeria : Raw.country :=
  sample_country "NIGERIA" 1%Q None.

Definition no_countries_upstream : Upstream :=
  {| fetchCountries := None;
     fetchExchangeRates := Some sample_rates;
     now := sample_now;
     random := fun _ => (1 # 2)%Q |}.

Definition request (m : Method) (u : string) : Request :=
  {| method := m; url := u; query := ∅ |}.

(** * Properties *)

(** ** Rounding to binary64 *)

Lemma round_half_even_bounds (y : Q) :
  (Qfloor y <= round_half_even y <= Qfloor y + 1)%Z.
Proof.
  unfold round_half_even.
  destruct (y - inject_Z (Qfloor y) ?= 1 # 2)%Q; [destruct (Z.even _)| |]; lia.
Qed.

Lemma round_half_even_le (y1 y2 : Q) :
  (y1 <= y2)%Q -> (round_half_even y1 <= round_half_even y2)%Z.
Proof.
  intros H. pose proof (Qfloor_resp_le _ _ H) as Hf.
  pose proof (round_half_even_bounds y1) as B1.
  pose proof (round_half_even_bounds y2) as B2.
  destruct (Z.eq_dec (Qfloor y1) (Qfloor y2)) as [E | E]; [|lia].
  unfold round_half_even. rewrite <- E.
  destruct (Qcompare_spec (y1 - inject_Z (Qfloor y1)) (1 # 2)) as [H1 | H1 | H1];
    destruct (Qcompare_spec (y2 - inject_Z (Qfloor y1)) (1 # 2)) as [H2 | H2 | H2];
    try destruct (Z.even (Qfloor y1)); try lia; exfalso; lra.
Qed.

Lemma round_half_even_Z (k : Z) : round_half_even (inject_Z k) = k.
Proof.
  unfold round_half_even. rewrite Qfloor_Z.
  destruct (Qcompare_spec (inject_Z k - inject_Z k) (1 # 2));
    [exfalso; lra | reflexivity | exfalso; lra].
Qed.

Lemma round_half_even_comp (y1 y2 : Q) :
  (y1 == y2)%Q -> round_half_even y1 = round_half_even y2.
Proof.
  intros H. apply Z.le_antisymm; apply round_half_even_le; rewrite H; apply Qle_refl.
Qed.

Lemma two_pow_pos (s : Z) : (0 < 2 ^ s)%Q.
Proof. apply Qpower_0_lt. reflexivity. Qed.

Lemma round_at_le (s : Z) (x y : Q) :
  (x <= y)%Q -> (round_at s x <= round_at s y)%Q.
Proof.
  intros H. unfold round_at. pose proof (two_pow_pos s) as Hs.
  apply Qmult_le_compat_r; [|now apply Qlt_le_weak].
  rewrite <- Zle_Qle. apply round_half_even_le.
  unfold Qdiv. apply Qmult_le_compat_r; [exact H|].
  apply Qlt_le_weak, Qinv_lt_0_compat, Hs.
Qed.

Lemma round_at_fix (s k : Z) :
  (round_at s (inject_Z k * 2 ^ s) == inject_Z k * 2 ^ s)%Q.
Proof.
  unfold round_at. pose proof (two_pow_pos s) as Hs.
  rewrite (round_half_even_comp _ (inject_Z k)).
  - now rewrite round_half_even_Z.
  - field. intros E. rewrite E in Hs. now apply Qlt_irrefl in Hs.
Qed.

Lemma round_at_nonneg (s : Z) (x : Q) : (0 <= x)%Q -> (0 <= round_at s x)%Q.
Proof.
  intros H. pose proof (round_at_fix s 0) as F.
  assert (E : (inject_Z 0 * 2 ^ s == 0)%Q) by ring.
  apply Qle_trans with (round_at s (inject_Z 0 * 2 ^ s)).
  - rewrite F, E. apply Qle_refl.
  - apply round_at_le. now rewrite E.
Qed.

Lemma exponent_spec (a : Q) :
  (0 < a)%Q -> (2 ^ exponent a <= a)%Q /\ (a < 2 ^ (exponent a + 1))%Q.
Proof.
  intros Ha. destruct a as [n d]. unfold exponent. simpl Qnum. simpl Qden.
  assert (Hn : (0 < n)%Z) by (unfold Qlt in Ha; simpl in Ha; lia).
  set (i := Z.log2 n). set (j := Z.log2 (Zpos d)).
  destruct (Z.log2_spec n Hn) as [Hi1 Hi2]. fold i in Hi1, Hi2.
  destruct (Z.log2_spec (Zpos d) ltac:(lia)) as [Hj1 Hj2]. fold j in Hj1, Hj2.
  assert (Hi0 : (0 <= i)%Z) by apply Z.log2_nonneg.
  assert (Hj0 : (0 <= j)%Z) by apply Z.log2_nonneg.
  assert (Hnq : (2 ^ i <= inject_Z n)%Q /\ (inject_Z n < 2 ^ (i + 1))%Q).
  { change 2%Q with (inject_Z 2). rewrite <- !Zpower_Qpower by lia.
    rewrite <- Zle_Qle, <- Zlt_Qlt. replace (i + 1)%Z with (Z.succ i) by lia. auto. }
  assert (Hdq : (2 ^ j <= inject_Z (Zpos d))%Q /\ (inject_Z (Zpos d) < 2 ^ (j + 1))%Q).
  { change 2%Q with (inject_Z 2). rewrite <- !Zpower_Qpower by lia.
    rewrite <- Zle_Qle, <- Zlt_Qlt. replace (j + 1)%Z with (Z.succ j) by lia. auto. }
  assert (Hval : (n # d == inject_Z n / inject_Z (Zpos d))%Q).
  { rewrite Qmake_Qdiv. reflexivity. }
  assert (H2 : ~ (2 == 0)%Q) by discriminate.
  assert (Hd0 : (0 < inject_Z (Zpos d))%Q) by reflexivity.
  pose proof (two_pow_pos j) as Pj. pose proof (two_pow_pos i) as Pi.
  assert (Hup : (n # d < 2 ^ (i - j + 1))%Q).
  { rewrite Hval. apply Qlt_shift_div_r; [exact Hd0|].
    replace (i - j + 1)%Z with ((i + 1) + - j)%Z by lia.
    rewrite Qpower_plus by exact H2. rewrite Qpower_opp.
    apply Qlt_le_trans with (2 ^ (i + 1))%Q; [apply Hnq|].
    rewrite <- (Qmult_1_r (2 ^ (i + 1))) at 1. rewrite <- Qmult_assoc.
    apply Qmult_le_l; [apply two_pow_pos|].
    setoid_replace (/ 2 ^ j * inject_Z (Z.pos d))%Q
      with (inject_Z (Z.pos d) / 2 ^ j)%Q using relation Qeq
      by (unfold Qdiv; ring).
    apply Qle_shift_div_l; [exact (two_pow_pos j)|]. rewrite Qmult_1_l. apply Hdq. }
  assert (Hlo : (2 ^ (i - j - 1) <= n # d)%Q).
  { rewrite Hval. apply Qle_shift_div_l; [exact Hd0|].
    replace (i - j - 1)%Z with (i + - (j + 1))%Z by lia.
    rewrite Qpower_plus by exact H2. rewrite Qpower_opp.
    apply Qle_trans with (2 ^ i)%Q; [|apply Hnq].
    rewrite <- (Qmult_1_r (2 ^ i)) at 2. rewrite <- Qmult_assoc.
    apply Qmult_le_l; [apply two_pow_pos|].
    setoid_replace (/ 2 ^ (j + 1) * inject_Z (Z.pos d))%Q
      with (inject_Z (Z.pos d) / 2 ^ (j + 1))%Q using relation Qeq
      by (unfold Qdiv; ring).
    apply Qle_shift_div_r; [exact (two_pow_pos (j + 1))|]. rewrite Qmult_1_l.
    apply Qlt_le_weak, Hdq. }
  destruct (Qle_bool (2 ^ (i - j)) (n # d)) eqn:E.
  - apply Qle_bool_iff in E. split; [exact E | exact Hup].
  - split; [exact Hlo|]. replace (i - j - 1 + 1)%Z with (i - j)%Z by lia.
    apply Qnot_le_lt. intros H. apply Qle_bool_iff in H. congruence.
Qed.

Lemma exponent_le (a b : Q) :
  (0 < a)%Q -> (a <= b)%Q -> (exponent a <= exponent b)%Z.
Proof.
  intros Ha Hab.
  assert (Hb : (0 < b)%Q) by (eapply Qlt_le_trans; eauto).
  destruct (exponent_spec a Ha) as [A1 _]. destruct (exponent_spec b Hb) as [_ B2].
  assert (H : (2 ^ exponent a < 2 ^ (exponent b + 1))%Q).
  { eapply Qle_lt_trans; [exact A1|]. eapply Qle_lt_trans; eauto. }
  apply Qpower_lt_compat_l_inv in H; [lia | reflexivity].
Qed.

Lemma two_pow_scaled (e k : Z) :
  (0 <= k)%Z -> (2 ^ e == inject_Z (2 ^ k) * 2 ^ (e - k))%Q.
Proof.
  intros Hk. rewrite Zpower_Qpower by exact Hk. change (inject_Z 2) with 2%Q.
  rewrite <- Qpower_plus by discriminate. now replace (k + (e - k))%Z with e by lia.
Qed.

(** A power of two is a multiple of every smaller power of two. *)
Lemma round_at_pow (s e : Z) : (s <= e)%Z -> (round_at s (2 ^ e) == 2 ^ e)%Q.
Proof.
  intros H. pose proof (two_pow_scaled e (e - s) ltac:(lia)) as E.
  replace (e - (e - s))%Z with s in E by lia.
  apply Qle_antisym.
  - apply Qle_trans with (round_at s (inject_Z (2 ^ (e - s)) * 2 ^ s)).
    + apply round_at_le. rewrite <- E. apply Qle_refl.
    + rewrite round_at_fix, <- E. apply Qle_refl.
  - apply Qle_trans with (round_at s (inject_Z (2 ^ (e - s)) * 2 ^ s)).
    + rewrite round_at_fix, <- E. apply Qle_refl.
    + apply round_at_le. rewrite <- E. apply Qle_refl.
Qed.

Lemma round_pos_le (a b : Q) :
  (0 < a)%Q -> (a <= b)%Q ->
  (round_at (ulp_exponent a) a <= round_at (ulp_exponent b) b)%Q.
Proof.
  intros Ha Hab.
  assert (Hb : (0 < b)%Q) by (eapply Qlt_le_trans; eauto).
  pose proof (exponent_le a b Ha Hab) as He.
  destruct (Z.eq_dec (ulp_exponent a) (ulp_exponent b)) as [E | E].
  - rewrite E. now apply round_at_le.
  - destruct (exponent_spec a Ha) as [_ A]. destruct (exponent_spec b Hb) as [B _].
    unfold ulp_exponent in *.
    assert (Hlt : (exponent a + 1 <= exponent b)%Z) by lia.
    assert (Hsa : (Z.max (exponent a - 52) (-1074) <= exponent b)%Z) by lia.
    assert (Hsb : (Z.max (exponent b - 52) (-1074) <= exponent b)%Z) by lia.
    apply Qle_trans with (2 ^ exponent b)%Q.
    + rewrite <- (round_at_pow _ _ Hsa). apply round_at_le.
      apply Qlt_le_weak. eapply Qlt_le_trans; [exact A|].
      apply Qpower_le_compat_l; [exact Hlt | discriminate].
    + rewrite <- (round_at_pow _ _ Hsb) at 1. now apply round_at_le.
Qed.

Lemma round_finite_pos (x : Q) :
  (0 < x)%Q -> round_finite x = round_at (ulp_exponent x) x.
Proof.
  intros H. unfold round_finite. destruct x as [[|n|n] d]; try reflexivity;
    unfold Qlt in H; simpl in H; lia.
Qed.

Lemma round_finite_neg (x : Q) :
  (x < 0)%Q -> round_finite x = (- round_at (ulp_exponent (- x)) (- x))%Q.
Proof.
  intros H. unfold round_finite. destruct x as [[|n|n] d]; try reflexivity;
    unfold Qlt in H; simpl in H; lia.
Qed.

Lemma round_finite_zero (x : Q) : (x == 0)%Q -> round_finite x = 0%Q.
Proof.
  intros H. unfold round_finite. destruct x as [[|n|n] d]; try reflexivity;
    unfold Qeq in H; simpl in H; lia.
Qed.

Lemma round_finite_nonneg (x : Q) : (0 <= x)%Q -> (0 <= round_finite x)%Q.
Proof.
  intros H. destruct (Qlt_le_dec 0 x) as [Hx | Hx].
  - rewrite (round_finite_pos x Hx). apply round_at_nonneg, H.
  - rewrite (round_finite_zero x); [apply Qle_refl | now apply Qle_antisym].
Qed.

Lemma round_finite_nonpos (x : Q) : (x <= 0)%Q -> (round_finite x <= 0)%Q.
Proof.
  intros H. destruct (Qlt_le_dec x 0) as [Hx | Hx].
  - rewrite (round_finite_neg x Hx).
    assert (0 <= round_at (ulp_exponent (- x)) (- x))%Q
      by (apply round_at_nonneg; lra).
    lra.
  - rewrite (round_finite_zero x); [apply Qle_refl | now apply Qle_antisym].
Qed.

(** Rounding keeps the order. *)
Lemma round_finite_le (x y : Q) :
  (x <= y)%Q -> (round_finite x <= round_finite y)%Q.
Proof.
  intros H.
  destruct (Qlt_le_dec 0 x) as [Hx | Hx].
  - assert (Hy : (0 < y)%Q) by lra.
    rewrite (round_finite_pos x Hx), (round_finite_pos y Hy).
    now apply round_pos_le.
  - destruct (Qlt_le_dec y 0) as [Hy | Hy].
    + assert (Hx' : (x < 0)%Q) by lra.
      rewrite (round_finite_neg x Hx'), (round_finite_neg y Hy).
      apply Qopp_le_compat. apply round_pos_le; lra.
    + apply Qle_trans with 0%Q.
      * now apply round_finite_nonpos.
      * now apply round_finite_nonneg.
Qed.

Lemma binary64_number (x : Q) : is_number (binary64 x).
Proof.
  unfold binary64.
  destruct (Qle_bool _ (round_finite x)); [exact I|].
  destruct (Qle_bool (round_finite x) _); exact I.
Qed.

Lemma js_le_refl (v : JsValue) : is_number v -> js_le v v.
Proof. destruct v as [q|[]| |]; simpl; auto. intros _. apply Qle_refl. Qed.

Lemma js_le_trans (a b c : JsValue) : js_le a b -> js_le b c -> js_le a c.
Proof.
  destruct a as [x|[]| |], b as [y|[]| |], c as [z|[]| |]; simpl; auto;
    try contradiction.
  apply Qle_trans.
Qed.

Lemma js_le_number (a b : JsValue) : js_le a b -> is_number a /\ is_number b.
Proof. destruct a as [x|[]| |], b as [y|[]| |]; simpl; auto. Qed.

(** The binary64 value of a result keeps the order of the exact results. *)
Lemma binary64_le (x y : Q) : (x <= y)%Q -> js_le (binary64 x) (binary64 y).
Proof.
  intros H. apply round_finite_le in H. unfold binary64.
  pose proof (two_pow_pos 1024) as Hp.
  destruct (Qle_bool (2 ^ 1024) (round_finite x)) eqn:Ex.
  - apply Qle_bool_iff in Ex.
    destruct (Qle_bool (2 ^ 1024) (round_finite y)) eqn:Ey; [exact I|].
    exfalso. assert (Hy : (2 ^ 1024 <= round_finite y)%Q) by (eapply Qle_trans; eauto).
    apply Qle_bool_iff in Hy. congruence.
  - destruct (Qle_bool (round_finite x) (- 2 ^ 1024)) eqn:Ex'.
    + destruct (Qle_bool (2 ^ 1024) (round_finite y)); [exact I|].
      destruct (Qle_bool (round_finite y) (- 2 ^ 1024)); exact I.
    + destruct (Qle_bool (2 ^ 1024) (round_finite y)); [exact I|].
      destruct (Qle_bool (round_finite y) (- 2 ^ 1024)) eqn:Ey'; [|exact H].
      apply Qle_bool_iff in Ey'.
      assert (Hx : (round_finite x <= - 2 ^ 1024)%Q) by (eapply Qle_trans; eauto).
      apply Qle_bool_iff in Hx. congruence.
Qed.

Lemma binary64_comp (x y : Q) : (x == y)%Q -> js_le (binary64 x) (binary64 y).
Proof. intros H. apply binary64_le. rewrite H. apply Qle_refl. Qed.

(** A value between two finite numbers is a finite number between them. *)
Lemma js_between (v : JsValue) (lo hi : Q) :
  js_le (Num lo) v -> js_le v (Num hi) ->
  exists q, v = Num q /\ (lo <= q)%Q /\ (q <= hi)%Q.
Proof. destruct v as [q|[]| |]; simpl; try contradiction. eauto. Qed.

(** ** The GDP estimator *)

Lemma truthy_string_true (s : string) :
  truthy_string s = true <-> s <> EmptyString.
Proof.
  unfold truthy_string. destruct (String.eqb_spec s EmptyString); simpl.
  - split; [discriminate | congruence].
  - split; [auto | reflexivity].
Qed.

Lemma truthy_number_false (q : Q) : truthy_number q = false <-> (q == 0)%Q.
Proof.
  unfold truthy_number, Qeq. simpl. rewrite Z.mul_1_r.
  destruct (Z.eqb_spec (Qnum q) 0); simpl; split; auto; try discriminate.
  intros; contradiction.
Qed.

Lemma truthy_number_positive (q : Q) : (0 < q)%Q -> truthy_number q = true.
Proof.
  intros H. destruct (truthy_number q) eqn:E; [reflexivity|].
  apply truthy_number_false in E. rewrite E in H.
  exfalso. exact (Qlt_irrefl 0 H).
Qed.

Lemma is_zero_positive (q : Q) : (0 < q)%Q -> is_zero q = false.
Proof. intros H. apply truthy_number_positive in H. now apply negb_true_iff in H. Qed.

Lemma is_negative_positive (q : Q) : (0 < q)%Q -> is_negative q = false.
Proof.
  intros H. unfold is_negative. apply Z.ltb_ge.
  unfold Qlt in H. simpl in H. lia.
Qed.

Lemma binary64_0 : binary64 0 = Num 0.
Proof. vm_compute. reflexivity. Qed.

Lemma binary64_1000 : exists q, binary64 1000 = Num q /\ (q == 1000)%Q.
Proof. eexists. split; vm_compute; reflexivity. Qed.

Lemma binary64_2000 : exists q, binary64 2000 = Num q /\ (q == 2000)%Q.
Proof. eexists. split; vm_compute; reflexivity. Qed.

Lemma binary64_zero (x : Q) : (x == 0)%Q -> binary64 x = Num 0.
Proof.
  intros H. unfold binary64. rewrite (round_finite_zero x H).
  vm_compute. reflexivity.
Qed.

(** The multiplier of a draw from [[0, 1)] is a number from 1000 to 2000. *)
Lemma randomMultiplier_range (u : Q) :
  (0 <= u)%Q -> (u < 1)%Q ->
  exists m, js_add (js_mul (Num u) (Num 1000)) (Num 1000) = Num m
            /\ (1000 <= m)%Q /\ (m <= 2000)%Q.
Proof.
  intros H0 H1. cbn [js_mul to_number].
  destruct binary64_1000 as (k & Ek & Hk).
  destruct binary64_2000 as (k' & Ek' & Hk').
  assert (L : js_le (Num 0) (binary64 (u * 1000))).
  { rewrite <- binary64_0. apply binary64_le. lra. }
  assert (U : js_le (binary64 (u * 1000)) (Num k)).
  { rewrite <- Ek. apply binary64_le. lra. }
  destruct (js_between _ _ _ L U) as (a & -> & La & Ua).
  cbn [js_add to_number].
  assert (L' : js_le (Num k) (binary64 (a + 1000))).
  { rewrite <- Ek. apply binary64_le. lra. }
  assert (U' : js_le (binary64 (a + 1000)) (Num k')).
  { rewrite <- Ek'. apply binary64_le. lra. }
  destruct (js_between _ _ _ L' U') as (m & -> & Lm & Um).
  exists m. split; [reflexivity|]. lra.
Qed.

Lemma js_le_top (v : JsValue) : is_number v -> js_le v (Infinity false).
Proof. destruct v as [q|[]| |]; simpl; auto. Qed.

Lemma js_le_bottom (v : JsValue) : is_number v -> js_le (Infinity true) v.
Proof. destruct v as [q|[]| |]; simpl; auto. Qed.


Lemma js_div_number (a : JsValue) (R : Q) :
  (0 < R)%Q -> is_number a -> is_number (js_div a (Num R)).
Proof.
  intros HR. destruct a as [x|s| |]; cbn [is_number js_div to_number];
    try contradiction; intros _.
  - rewrite (is_zero_positive R HR). apply binary64_number.
  - exact I.
Qed.

Lemma js_div_le (a b : JsValue) (R : Q) :
  (0 < R)%Q -> js_le a b -> js_le (js_div a (Num R)) (js_div b (Num R)).
Proof.
  intros HR H.
  destruct (js_le_number _ _ H) as [Na Nb].
  pose proof (js_div_number a R HR Na) as Da.
  pose proof (js_div_number b R HR Nb) as Db.
  destruct a as [x|[]| |], b as [y|[]| |]; simpl in H; try contradiction.
  - cbn [js_div to_number]. rewrite (is_zero_positive R HR).
    apply binary64_le. unfold Qdiv. apply Qmult_le_compat_r; [exact H|].
    apply Qlt_le_weak, Qinv_lt_0_compat, HR.
  - cbn [js_div to_number] in *. rewrite (is_negative_positive R HR) in *.
    now apply js_le_top.
  - cbn [js_div to_number] in *. rewrite (is_negative_positive R HR) in *.
    now apply js_le_bottom.
  - cbn [js_div to_number]. rewrite (is_negative_positive R HR). exact I.
  - cbn [js_div to_number]. rewrite (is_negative_positive R HR). exact I.
  - cbn [js_div to_number]. rewrite (is_negative_positive R HR). exact I.
Qed.

Lemma js_mul_number (P m : Q) : is_number (js_mul (Num P) (Num m)).
Proof. cbn [js_mul to_number]. apply binary64_number. Qed.

Lemma property_own (rates : gmap string Q) (c : string) (r : Q) :
  rates !! c = Some r -> property rates c = Some (Num r).
Proof. intros H. unfold property. now rewrite H. Qed.


Lemma inherited_true (c : string) :
  inherited c = true <-> c ∈ object_prototype_keys.
Proof. unfold inherited. apply bool_decide_eq_true. Qed.



(** C10 (as amended).  When the currency code of a country maps to a rate
    equal to zero, the candidate's [exchange_rate] is null, and its
    [estimated_gdp] is null if the code is a non-empty string.  For every
    country, a rate that reaches the division is not zero. *)
Theorem zero_rate_is_absent (rates : gmap string Q) (u : Q)
    (country : Raw.country) :
  let p := processCountry rates u country in
  (forall c r, currencyCode country = Some c -> rates !! c = Some r ->
     (r == 0)%Q ->
     exchange_rate p = None
     /\ (c <> EmptyString -> estimated_gdp p = None))
  /\ (forall v, exchange_rate p = Some v ->
       (forall r, v = Num r -> ~ (r == 0)%Q)
       /\ estimated_gdp p
          = Some (js_div (js_mul (Num (Raw.population country))
                                 (randomMultiplier u)) v)).
Proof.
  intros p. split.
  - intros c r Hc Hr Hz. apply truthy_number_false in Hz.
    subst p; simpl. rewrite Hc. unfold exchangeRate, estimatedGdp.
    destruct (truthy_string c) eqn:Hs.
    + rewrite (property_own _ _ _ Hr). cbn [truthy_value]. rewrite Hz.
      split; [reflexivity|]. intros _. simpl. now rewrite Hs.
    + split; [reflexivity|]. intros Hne.
      apply truthy_string_true in Hne. congruence.
  - intros v. subst p; simpl. unfold exchangeRate, estimatedGdp.
    destruct (currencyCode country) as [c|]; [|discriminate].
    destruct (truthy_string c); [|discriminate].
    destruct (property rates c) as [v'|]; [|discriminate].
    destruct (truthy_value v') eqn:Ht; [|discriminate].
    intros [= ->]. rewrite Ht. split; [|reflexivity].
    intros r -> Hz. apply truthy_number_false in Hz.
    cbn [truthy_value] in Ht. congruence.
Qed.

(** ** Validation *)

Lemma is_integer_spec (q : Q) :
  is_integer q = true <-> exists z : Z, (q == inject_Z z)%Q.
Proof.
  unfold is_integer. split.
  - intros H. apply Pos.eqb_eq in H.
    exists (Qnum (Qred q)). rewrite <- (Qred_correct q) at 1.
    destruct (Qred q) as [a b]; simpl in *. subst b. reflexivity.
  - intros [z Hz]. apply Pos.eqb_eq.
    rewrite (Qred_complete _ _ Hz). unfold Qred, inject_Z.
    pose proof (Z.ggcd_gcd z 1) as Hg.
    pose proof (Z.ggcd_correct_divisors z 1) as Hd.
    destruct (Z.ggcd z 1) as [g [aa bb]]; simpl in *.
    rewrite Z.gcd_1_r in Hg. subst g. destruct Hd as [_ Hb].
    rewrite Z.mul_1_l in Hb. subst bb. reflexivity.
Qed.

Lemma nonnegative_spec (q : Q) : nonnegative q = true <-> (0 <= q)%Q.
Proof. apply Qle_bool_iff. Qed.

Lemma positive_number_spec (q : Q) : positive_number q = true <-> (0 < q)%Q.
Proof.
  unfold positive_number. rewrite negb_true_iff.
  split.
  - intros H. apply Qnot_le_lt. intros Hle.
    apply Qle_bool_iff in Hle. congruence.
  - intros H. destruct (Qle_bool q 0) eqn:E; [|reflexivity].
    apply Qle_bool_iff in E. exfalso. exact (Qlt_not_le _ _ H E).
Qed.

Lemma nonnegative_integer_spec (q : Q) :
  is_integer q = true /\ nonnegative q = true <->
  exists n : Z, (0 <= n)%Z /\ (q == inject_Z n)%Q.
Proof.
  split.
  - intros [Hi Hp]. apply is_integer_spec in Hi as [z Hz].
    exists z. split; [|exact Hz].
    apply nonnegative_spec in Hp. rewrite Hz in Hp.
    change 0%Q with (inject_Z 0) in Hp. now rewrite <- Zle_Qle in Hp.
  - intros (z & Hz0 & Hz). split.
    + apply is_integer_spec. eauto.
    + apply nonnegative_spec. rewrite Hz.
      change 0%Q with (inject_Z 0). now rewrite <- Zle_Qle.
Qed.

Lemma issue_unless_nil (ok : bool) (field msg : string) :
  issue_unless ok field msg = [] <-> ok = true.
Proof. destruct ok; simpl; split; auto; discriminate. Qed.

Lemma positive_issues_nil (field : string) (o : option JsValue) :
  positive_issues field o = [] <-> forall v, o = Some v -> positive_value v.
Proof.
  destruct o as [[r|[]| |k]|]; cbn [positive_issues positive_value].
  - rewrite issue_unless_nil, positive_number_spec. split.
    + now intros H v [= <-].
    + intros H. exact (H _ eq_refl).
  - split; [discriminate|]. intros H. specialize (H _ eq_refl). discriminate.
  - split; [|reflexivity]. now intros _ v [= <-].
  - split; [discriminate|]. intros H. destruct (H _ eq_refl).
  - split; [discriminate|]. intros H. destruct (H _ eq_refl).
  - split; [|reflexivity]. intros _ v [=].
Qed.

Lemma number_issues_nil (field : string) (o : option JsValue) :
  number_issues field o = [] <-> forall v, o = Some v -> is_number v.
Proof.
  destruct o as [[r|s| |k]|]; cbn [number_issues is_number].
  - split; [|reflexivity]. now intros _ v [= <-].
  - split; [|reflexivity]. now intros _ v [= <-].
  - split; [discriminate|]. intros H. destruct (H _ eq_refl).
  - split; [discriminate|]. intros H. destruct (H _ eq_refl).
  - split; [|reflexivity]. intros _ v [=].
Qed.

Lemma name_length (s : string) :
  Nat.leb 1 (String.length s) = true <-> s <> EmptyString.
Proof. destruct s; simpl; split; auto; try discriminate; congruence. Qed.

(** The schema of the code accepts exactly the candidates described by
    [valid_candidate]. *)
Lemma parse_valid (p : ProcessedCountry) :
  parse p = [] <-> valid_candidate p.
Proof.
  unfold parse, valid_candidate.
  rewrite !app_nil, !issue_unless_nil, positive_issues_nil, number_issues_nil.
  rewrite name_length, <- nonnegative_integer_spec. tauto.
Qed.

Lemma exchangeRate_cases (rates : gmap string Q) (code : option string) :
  exchangeRate rates code = None
  \/ (exists r, exchangeRate rates code = Some (Num r))
  \/ (exists k, exchangeRate rates code = Some (Inherited k)).
Proof.
  unfold exchangeRate, property.
  destruct code as [c|]; [|now left].
  destruct (truthy_string c); [|now left].
  destruct (rates !! c) as [r|].
  - cbn [truthy_value]. destruct (truthy_number r); eauto.
  - destruct (inherited c); cbn [truthy_value]; eauto.
Qed.

(** For a candidate built with a draw from [[0, 1)], the estimate is a
    number as soon as the exchange rate passes the schema. *)
Lemma processed_gdp_number (rates : gmap string Q) (u : Q)
    (country : Raw.country) :
  (0 <= u)%Q -> (u < 1)%Q ->
  let p := processCountry rates u country in
  (forall v, exchange_rate p = Some v -> positive_value v) ->
  forall v, estimated_gdp p = Some v -> is_number v.
Proof.
  intros Hu0 Hu1 p Hrate v. subst p.
  change (estimated_gdp (processCountry rates u country))
    with (estimatedGdp (Raw.population country) (currencyCode country)
            (exchangeRate rates (currencyCode country)) u).
  unfold estimatedGdp.
  destruct (exchangeRate_cases rates (currencyCode country))
    as [Hx | [(r & Hx) | (k & Hx)]];
    pose proof (Hrate _ Hx) as Hpos || clear Hrate; rewrite Hx.
  - destruct (truthy_opt _); [discriminate | now intros [= <-]].
  - cbn [positive_value] in Hpos. cbn [truthy_value].
    rewrite (truthy_number_positive r Hpos). intros [= <-].
    unfold randomMultiplier.
    destruct (randomMultiplier_range u Hu0 Hu1) as (m & -> & _).
    apply js_div_number; [exact Hpos | apply js_mul_number].
  - destruct Hpos.
Qed.

(** ** The details of a validation failure *)

Lemma details_fold_keep (issues : list ZodIssue) (acc : gmap string string)
    (f : string) :
  (forall e, e ∈ issues -> path e <> f) ->
  foldl (fun details err => <[path err := message err]> details) acc issues !! f
  = acc !! f.
Proof.
  revert acc. induction issues as [|e issues IH]; intros acc H; simpl.
  - reflexivity.
  - rewrite IH.
    + apply lookup_insert_ne, H, elem_of_cons. auto.
    + intros e' He'. apply H, elem_of_cons. auto.
Qed.

Lemma details_of_nil_iff (issues : list ZodIssue) :
  details_of issues = ∅ <-> issues = [].
Proof.
  split; [|now intros ->].
  destruct issues as [|e l] using rev_ind; [reflexivity|].
  unfold details_of. rewrite foldl_app. simpl. intros H.
  apply (f_equal (fun m => m !! path e)) in H.
  rewrite lookup_insert_eq, lookup_empty in H. discriminate.
Qed.

Ltac schema_cases p :=
  unfold parse, positive_issues, number_issues, expected_number, received,
    issue_unless;
  destruct (name p) as [|? ?];
  destruct (is_integer (population p)), (nonnegative (population p));
  destruct (exchange_rate p) as [[r|[]| |k]|];
  destruct (estimated_gdp p) as [[g|[]| |k']|];
  try destruct (positive_number r);
  try destruct (String.eqb k "__proto__");
  try destruct (String.eqb k' "__proto__").

(** The message that [details] carries for each key. *)
Lemma details_name (p : ProcessedCountry) :
  details_of (parse p) !! "name"
  = if String.eqb (name p) EmptyString
    then Some "String must contain at least 1 character(s)" else None.
Proof. schema_cases p; vm_compute; reflexivity. Qed.

Lemma details_population (p : ProcessedCountry) :
  details_of (parse p) !! "population"
  = if nonnegative (population p)
    then if is_integer (population p) then None
         else Some "Expected integer, received float"
    else Some "Number must be greater than or equal to 0".
Proof. schema_cases p; vm_compute; reflexivity. Qed.

Lemma details_exchange_rate (p : ProcessedCountry) :
  details_of (parse p) !! "exchange_rate"
  = message <$> head (positive_issues "exchange_rate" (exchange_rate p)).
Proof. schema_cases p; vm_compute; reflexivity. Qed.

Lemma details_estimated_gdp (p : ProcessedCountry) :
  details_of (parse p) !! "estimated_gdp"
  = message <$> head (number_issues "estimated_gdp" (estimated_gdp p)).
Proof. schema_cases p; vm_compute; reflexivity. Qed.

Lemma details_other (p : ProcessedCountry) (f : string) :
  f <> "name" -> f <> "population" -> f <> "exchange_rate" ->
  f <> "estimated_gdp" ->
  details_of (parse p) !! f = None.
Proof.
  intros H1 H2 H3 H4. unfold details_of.
  rewrite details_fold_keep; [apply lookup_empty|].
  intros e. unfold parse, positive_issues, number_issues, expected_number.
  rewrite !elem_of_app. unfold issue_unless.
  intros [H | [H | [H | [H | H]]]];
    repeat match type of H with
           | _ ∈ (if ?b then _ else _) => destruct b
           | _ ∈ match ?o with _ => _ end => destruct o
           end;
    try (now apply elem_of_nil in H);
    apply list_elem_of_singleton in H; subst e; cbn [path]; congruence.
Qed.

(** ** The refresh loop *)

Lemma processCountries_valid rates now random (cs : list Raw.country) :
  forall i acc,
  Forall (fun d => valid_candidate (data_fields d))
         (candidates rates now random i cs) ->
  processCountries rates now random i cs acc
  = inr (acc ++ candidates rates now random i cs).
Proof.
  induction cs as [|c cs IH]; intros i acc H; simpl.
  - now rewrite app_nil_r.
  - inversion H as [|d l Hd Hl]; subst. simpl in Hd.
    apply parse_valid in Hd. rewrite Hd.
    rewrite (IH _ _ Hl). now rewrite <- app_assoc.
Qed.

Lemma processCountries_inr rates now random (cs : list Raw.country) :
  forall i acc data,
  processCountries rates now random i cs acc = inr data ->
  data = acc ++ candidates rates now random i cs
  /\ Forall (fun d => valid_candidate (data_fields d))
            (candidates rates now random i cs).
Proof.
  induction cs as [|c cs IH]; intros i acc data H; simpl in *.
  - injection H as <-. now rewrite app_nil_r.
  - destruct (parse (processCountry rates (random i) c)) eqn:E; [|discriminate].
    apply IH in H as [-> Hall]. split.
    + now rewrite <- app_assoc.
    + constructor; [|exact Hall]. simpl. now apply parse_valid.
Qed.

Lemma processCountries_inl_status rates now random (cs : list Raw.country) :
  forall i acc response,
  processCountries rates now random i cs acc = inl response ->
  status response = 400.
Proof.
  induction cs as [|c cs IH]; intros i acc response H; simpl in *.
  - discriminate.
  - destruct (parse (processCountry rates (random i) c)) eqn:E.
    + eapply IH, H.
    + injection H as <-. reflexivity.
Qed.

Lemma processCountries_first_failure rates now random
    (pre : list Raw.country) (c : Raw.country) (post : list Raw.country) :
  forall i acc,
  Forall (fun d => valid_candidate (data_fields d))
         (candidates rates now random i pre) ->
  ~ valid_candidate (processCountry rates (random (i + length pre)%nat) c) ->
  processCountries rates now random i (pre ++ c :: post) acc
  = inl (json 400
           (JsonValidation "Validation failed for country data" (Raw.name c)
              (details_of
                 (parse (processCountry rates (random (i + length pre)%nat) c))))).
Proof.
  induction pre as [|c0 pre IH]; intros i acc Hpre Hbad; simpl in *.
  - rewrite Nat.add_0_r in *.
    destruct (parse (processCountry rates (random i) c)) eqn:E.
    + exfalso. apply Hbad. now apply parse_valid.
    + reflexivity.
  - inversion Hpre as [|d l Hd Hl]; subst. simpl in Hd.
    apply parse_valid in Hd. rewrite Hd.
    rewrite <- Nat.add_succ_comm in *. now apply IH.
Qed.

(** ** The replace-all transaction *)

Lemma transaction_replace (data : list CountryCreateManyInput) (s : Store) :
  transaction [deleteMany; createMany data] s
  = createMany data {| rows := []; next_id := next_id s |}.
Proof. reflexivity. Qed.

Lemma name_keys_number_rows (data : list CountryCreateManyInput) :
  forall n,
  name_keys (number_rows n data)
  = map (fun d => ckey (name (data_fields d))) data.
Proof.
  induction data as [|d data IH]; intros n; simpl; [reflexivity|].
  f_equal. apply IH.
Qed.

Lemma number_rows_length (data : list CountryCreateManyInput) :
  forall n, length (number_rows n data) = length data.
Proof. induction data; intros n; simpl; auto. Qed.

Lemma number_rows_stamp (data : list CountryCreateManyInput) (t : Z) :
  Forall (fun d => data_last_refreshed_at d = t) data ->
  forall n, Forall (fun r => last_refreshed_at r = t) (number_rows n data).
Proof.
  induction 1; intros n; simpl; constructor; auto.
Qed.

Lemma number_rows_fields (data : list CountryCreateManyInput) :
  forall n, map fields (number_rows n data) = map data_fields data.
Proof. induction data; intros n; simpl; [reflexivity|]. f_equal. auto. Qed.

Lemma candidates_stamp rates now random (cs : list Raw.country) :
  forall i,
  Forall (fun d => data_last_refreshed_at d = now)
         (candidates rates now random i cs).
Proof. induction cs; intros i; simpl; constructor; auto. Qed.

Lemma candidates_length rates now random (cs : list Raw.country) :
  forall i, length (candidates rates now random i cs) = length cs.
Proof. induction cs; intros i; simpl; auto. Qed.

Lemma createMany_some (data : list CountryCreateManyInput) (s s' : Store) :
  createMany data s = Some s' ->
  rows s' = rows s ++ number_rows (next_id s) data /\ unique_names s'.
Proof.
  unfold createMany.
  destruct (forallb accepts data); simpl; [|discriminate].
  destruct (bool_decide (NoDup _)) eqn:E; [|discriminate].
  intros [= <-]. split; [reflexivity|].
  unfold unique_names. simpl. now apply bool_decide_eq_true in E.
Qed.

Lemma createMany_duplicate (data : list CountryCreateManyInput) (n : Z) :
  ~ NoDup (map (fun d => name (data_fields d)) data) ->
  createMany data {| rows := []; next_id := n |} = None.
Proof.
  intros Hdup. unfold createMany. simpl.
  rewrite name_keys_number_rows.
  destruct (bool_decide _) eqn:E; [|now rewrite andb_false_r].
  exfalso. apply Hdup. apply bool_decide_eq_true in E.
  apply (NoDup_fmap_1 ckey).
  change (ckey <$> map (fun d => name (data_fields d)) data)
    with (map ckey (map (fun d => name (data_fields d)) data)).
  now rewrite map_map.
Qed.

(** C4.  A candidate passes the schema of the code exactly when its name
    is non-empty, its population is a non-negative integer, its exchange
    rate is a positive number or absent and its estimate is a number or
    absent; for a candidate built with a draw from [[0, 1)] the last
    condition follows from the others.  When the candidates before a
    country all pass and that country's candidate does not, the refresh
    answers 400 with the country's name and a non-empty [details] object,
    and the process state (the store included) is what it was before the
    request.  [details] carries, for [name], [population],
    [exchange_rate] and [estimated_gdp], the message of the check that the
    field failed (for a population that fails both checks, the one of the
    later check) and nothing when the field passed, and it has no other
    key.  An exchange rate that is an inherited property fails as a value
    of the wrong type, and so does the estimate computed from it, which is
    [NaN]. *)
Theorem validation_failure_aborts (up : Upstream) (w : World)
    (rates : gmap string Q) (pre : list Raw.country) (c : Raw.country)
    (post : list Raw.country) :
  fetchCountries up = Some (pre ++ c :: post) ->
  fetchExchangeRates up = Some rates ->
  Forall (fun d => valid_candidate (data_fields d))
         (candidates rates (now up) (random up) 0 pre) ->
  let p := processCountry rates (random up (length pre)) c in
  ~ valid_candidate p ->
  let details := details_of (parse p) in
  (forall q, parse q = [] <-> valid_candidate q)
  /\ ((0 <= random up (length pre))%Q -> (random up (length pre) < 1)%Q ->
      (valid_candidate p <->
       name p <> EmptyString
       /\ (exists n : Z, (0 <= n)%Z /\ (population p == inject_Z n)%Q)
       /\ (exchange_rate p = None
           \/ exists r, exchange_rate p = Some (Num r) /\ (0 < r)%Q)))
  /\ refreshCountries up w
     = (json 400 (JsonValidation "Validation failed for country data"
                    (Raw.name c) details), w)
  /\ details <> ∅
  /\ (name p = EmptyString ->
      details !! "name" = Some "String must contain at least 1 character(s)")
  /\ (name p <> EmptyString -> details !! "name" = None)
  /\ (~ (0 <= population p)%Q ->
      details !! "population"
      = Some "Number must be greater than or equal to 0")
  /\ ((0 <= population p)%Q ->
      ~ (exists n : Z, (population p == inject_Z n)%Q) ->
      details !! "population" = Some "Expected integer, received float")
  /\ ((exists n : Z, (0 <= n)%Z /\ (population p == inject_Z n)%Q) ->
      details !! "population" = None)
  /\ (forall r, exchange_rate p = Some (Num r) -> ~ (0 < r)%Q ->
      details !! "exchange_rate" = Some "Number must be greater than 0")
  /\ (forall k, exchange_rate p = Some (Inherited k) ->
      details !! "exchange_rate"
      = Some ("Expected number, received "
              +:+ (if String.eqb k "__proto__" then "object" else "function")))
  /\ (exchange_rate p = None
      \/ (exists r, exchange_rate p = Some (Num r) /\ (0 < r)%Q) ->
      details !! "exchange_rate" = None)
  /\ (forall k, exchange_rate p = Some (Inherited k) ->
      estimated_gdp p = Some NaN
      /\ details !! "estimated_gdp" = Some "Expected number, received nan")
  /\ (estimated_gdp p = None
      \/ (exists v, estimated_gdp p = Some v /\ is_number v) ->
      details !! "estimated_gdp" = None)
  /\ (forall f, is_Some (details !! f) ->
      f = "name" \/ f = "population" \/ f = "exchange_rate"
      \/ f = "estimated_gdp").
Proof.
  intros Hc Hr Hpre p Hbad details.
  split; [exact parse_valid|].
  split.
  { intros Hu0 Hu1. unfold valid_candidate. split.
    - intros (Hn & Hp & Hx & _). split; [exact Hn|]. split; [exact Hp|].
      destruct (exchangeRate_cases rates (currencyCode c))
        as [E | [(r & E) | (k & E)]];
        change (exchangeRate rates (currencyCode c)) with (exchange_rate p) in E.
      + now left.
      + right. exists r. split; [exact E|]. exact (Hx _ E).
      + destruct (Hx _ E).
    - intros (Hn & Hp & Hx).
      assert (Hx' : forall v, exchange_rate p = Some v -> positive_value v).
      { intros v Hv. destruct Hx as [E | (r & E & Hpos)]; [congruence|].
        rewrite E in Hv. injection Hv as <-. exact Hpos. }
      split; [exact Hn|]. split; [exact Hp|]. split; [exact Hx'|].
      now apply processed_gdp_number. }
  split.
  { unfold refreshCountries. rewrite Hc, Hr.
    now rewrite (processCountries_first_failure _ _ _ pre c post 0 [] Hpre Hbad). }
  split.
  { intros Hempty. apply details_of_nil_iff in Hempty.
    now apply Hbad, parse_valid. }
  subst details.
  rewrite details_name, details_population, details_exchange_rate,
    details_estimated_gdp.
  split; [|split; [|split; [|split; [|split; [|split; [|split; [|split;
    [|split; [|split]]]]]]]]].
  - intros ->. reflexivity.
  - intros Hn. destruct (String.eqb_spec (name p) EmptyString); congruence.
  - intros Hneg. destruct (nonnegative (population p)) eqn:E; [|reflexivity].
    apply nonnegative_spec in E. contradiction.
  - intros Hpos Hni. apply nonnegative_spec in Hpos. rewrite Hpos.
    destruct (is_integer (population p)) eqn:E; [|reflexivity].
    apply is_integer_spec in E. contradiction.
  - intros Hex. apply nonnegative_integer_spec in Hex as [-> ->]. reflexivity.
  - intros r -> Hnp. cbn [positive_issues].
    destruct (positive_number r) eqn:E; [|reflexivity].
    apply positive_number_spec in E. contradiction.
  - intros k ->. reflexivity.
  - intros [-> | (r & -> & Hpos)]; [reflexivity|]. cbn [positive_issues].
    apply positive_number_spec in Hpos. now rewrite Hpos.
  - intros k Hk.
    assert (Hg : estimated_gdp p = Some NaN).
    { subst p.
      change (estimated_gdp (processCountry rates (random up (length pre)) c))
        with (estimatedGdp (Raw.population c) (currencyCode c)
                (exchangeRate rates (currencyCode c))
                (random up (length pre))).
      change (exchangeRate rates (currencyCode c) = Some (Inherited k)) in Hk.
      rewrite Hk. unfold estimatedGdp, js_div. cbn [truthy_value to_number].
      now destruct (to_number _). }
    split; [exact Hg|]. now rewrite Hg.
  - intros [-> | (v & -> & Hv)]; [reflexivity|].
    destruct v; try destruct Hv; reflexivity.
  - intros f Hf.
    destruct (decide (f = "name")) as [|N1]; [auto|].
    destruct (decide (f = "population")) as [|N2]; [auto|].
    destruct (decide (f = "exchange_rate")) as [|N3]; [auto|].
    destruct (decide (f = "estimated_gdp")) as [|N4]; [auto|].
    rewrite (details_other p f N1 N2 N3 N4) in Hf. now destruct Hf.
Qed.

(** C5.  When a refresh answers 200, both fetches returned data, every
    candidate of the cycle passed the schema, the table holds exactly the
    candidates of this cycle (so no earlier row is left), [count] is the
    number of candidates, and every row carries the cycle's [now]. *)
Theorem successful_refresh_replaces_all (up : Upstream) (w w' : World)
    (response : Response) :
  refreshCountries up w = (response, w') ->
  status response = 200 ->
  exists cs rates,
    fetchCountries up = Some cs
    /\ fetchExchangeRates up = Some rates
    /\ let data := candidates rates (now up) (random up) 0 cs in
       Forall (fun d => valid_candidate (data_fields d)) data
       /\ rows (db w') = number_rows (next_id (db w)) data
       /\ map fields (rows (db w')) = map data_fields data
       /\ count (db w') = length data
       /\ length data = length cs
       /\ Forall (fun r => last_refreshed_at r = now up) (rows (db w')).
Proof.
  unfold refreshCountries. intros H Hs.
  destruct (fetchCountries up) as [cs|];
    [|injection H as <- <-; discriminate].
  destruct (fetchExchangeRates up) as [rates|];
    [|injection H as <- <-; discriminate].
  destruct (processCountries rates (now up) (random up) 0 cs []) as [r|data] eqn:E.
  { injection H as <- <-. apply processCountries_inl_status in E.
    rewrite E in Hs. discriminate. }
  apply processCountries_inr in E as [-> Hall]. simpl in H.
  rewrite transaction_replace in H.
  destruct (createMany _ _) as [committed|] eqn:Ec;
    [|injection H as <- <-; discriminate].
  apply createMany_some in Ec as [Hrows _]. simpl in Hrows.
  destruct (generateSummaryImage _ _ _ _) as [files' returned].
  assert (Hdb : db w' = committed).
  { destruct returned; injection H as <- <-; reflexivity. }
  exists cs, rates. split; [reflexivity|]. split; [reflexivity|].
  simpl. rewrite Hdb, Hrows. repeat split.
  - exact Hall.
  - apply number_rows_fields.
  - unfold count. rewrite Hrows. apply number_rows_length.
  - apply candidates_length.
  - apply number_rows_stamp, candidates_stamp.
Qed.

(** ** Uniqueness of names *)

Lemma name_keys_filter (f : Country -> bool) (l : list Country) :
  NoDup (name_keys l) -> NoDup (name_keys (List.filter f l)).
Proof.
  unfold name_keys. induction l as [|r l IH]; simpl; intros H; [exact H|].
  apply NoDup_cons in H as [Hnot Hl]. destruct (f r); simpl; [|auto].
  apply NoDup_cons. split; [|auto].
  intros Hin. apply Hnot.
  apply list_elem_of_In, in_map_iff in Hin as (r' & Hk & Hr').
  apply filter_In in Hr' as [Hr' _].
  apply list_elem_of_In, in_map_iff. eauto.
Qed.

Lemma unique_names_case_sensitive (s : Store) :
  unique_names s -> NoDup (map (fun r => name (fields r)) (rows s)).
Proof.
  unfold unique_names, name_keys. intros H.
  apply (NoDup_fmap_1 ckey).
  change (NoDup (map ckey (map (fun r => name (fields r)) (rows s)))).
  now rewrite map_map.
Qed.

Lemma deleteWhereName_unique (n : string) (s s' : Store) :
  unique_names s -> deleteWhereName n s = Some s' -> unique_names s'.
Proof.
  unfold deleteWhereName, unique_names. intros H.
  destruct (existsb _ _); [|discriminate]. intros [= <-]. simpl.
  now apply name_keys_filter.
Qed.

Lemma refreshCountries_unique (up : Upstream) (w : World) :
  unique_names (db w) -> unique_names (db (refreshCountries up w).2).
Proof.
  intros H. unfold refreshCountries.
  destruct (fetchCountries up) as [cs|]; [|exact H].
  destruct (fetchExchangeRates up) as [rates|]; [|exact H].
  destruct (processCountries _ _ _ _ _ _) as [r|data]; [exact H|].
  rewrite transaction_replace.
  destruct (createMany _ _) as [committed|] eqn:Ec; [|exact H].
  apply createMany_some in Ec as [_ Hu].
  destruct (generateSummaryImage _ _ _ _) as [files' returned].
  destruct returned; exact Hu.
Qed.

Lemma deleteCountry_unique (n : string) (w : World) :
  unique_names (db w) -> unique_names (db (deleteCountry n w).2).
Proof.
  intros H. unfold deleteCountry.
  destruct (selectByLowerName n (db w)) as [|c l]; [exact H|].
  destruct (deleteWhereName _ _) as [s|] eqn:E; [|exact H].
  simpl. eapply deleteWhereName_unique; eauto.
Qed.

Lemma app_unique (up : Upstream) (req : Request) (w : World) :
  unique_names (db w) -> unique_names (db (app up req w).2).
Proof.
  intros H. unfold app.
  destruct (resolve router req) as [[] params| |]; simpl; auto.
  - now apply refreshCountries_unique.
  - now apply deleteCountry_unique.
Qed.

(** C6.  When every candidate of a cycle passes the schema and two of
    them, at different positions, have the same name, the refresh answers
    500 and the process state (the store included) is what it was before.
    The names of the table are pairwise different, even up to the
    collation, in the empty table and after every request served from a
    table where they were. *)
Theorem duplicate_names_abort :
  (forall (up : Upstream) (w : World) (cs : list Raw.country)
          (rates : gmap string Q) (i j : nat) (a b : CountryCreateManyInput),
     fetchCountries up = Some cs ->
     fetchExchangeRates up = Some rates ->
     let data := candidates rates (now up) (random up) 0 cs in
     Forall (fun d => valid_candidate (data_fields d)) data ->
     i <> j -> data !! i = Some a -> data !! j = Some b ->
     name (data_fields a) = name (data_fields b) ->
     refreshCountries up w = (internal_server_error, w))
  /\ unique_names empty_store
  /\ (forall (up : Upstream) (req : Request) (w : World),
        unique_names (db w) ->
        let w' := (app up req w).2 in
        unique_names (db w')
        /\ NoDup (map (fun r => name (fields r)) (rows (db w')))).
Proof.
  split; [|split].
  - intros up w cs rates i j a b Hc Hr data Hall Hij Ha Hb Hab.
    unfold refreshCountries. rewrite Hc, Hr.
    rewrite (processCountries_valid _ _ _ _ _ _ Hall). simpl.
    rewrite transaction_replace. fold data.
    rewrite createMany_duplicate; [reflexivity|].
    intros Hnd. apply Hij.
    eapply (proj1 (NoDup_alt _) Hnd i j (name (data_fields a))).
    + change (map ?f ?l) with (f <$> l). now rewrite list_lookup_fmap, Ha.
    + change (map ?f ?l) with (f <$> l). now rewrite list_lookup_fmap, Hb, Hab.
  - unfold unique_names. simpl. constructor.
  - intros up req w H w'. subst w'.
    pose proof (app_unique up req w H) as Hu. split; [exact Hu|].
    now apply unique_names_case_sensitive.
Qed.

(** ** Routing *)

Lemma append_nil_r (s : string) : s +:+ EmptyString = s.
Proof.
  induction s as [|c s IH]; [reflexivity|].
  cbv [String.append]. fold String.append. now rewrite IH.
Qed.

Lemma append_snoc (s : string) (c : ascii) (t : string) :
  (s +:+ String c EmptyString) +:+ t = s +:+ String c t.
Proof.
  induction s as [|a s IH]; [reflexivity|].
  cbv [String.append]. fold String.append. now rewrite IH.
Qed.

Lemma split_slash_no_slash (n : string) :
  forall cur, no_slash n = true -> split_slash n cur = [cur +:+ n].
Proof.
  induction n as [|c n IH]; intros cur H.
  - cbn [split_slash]. now rewrite append_nil_r.
  - cbn [no_slash] in H. apply andb_true_iff in H as [Hc Hn].
    apply negb_true_iff in Hc. cbn [split_slash]. rewrite Hc.
    rewrite (IH _ Hn). now rewrite append_snoc.
Qed.

Lemma split_slash_not_nil (s cur : string) : split_slash s cur <> [].
Proof.
  revert cur. induction s as [|c s IH]; intros cur; cbn [split_slash].
  - discriminate.
  - destruct (Ascii.eqb c "/"%char); [discriminate | apply IH].
Qed.

Lemma segments_country (n : string) :
  n <> EmptyString -> no_slash n = true ->
  segments ("/countries/" +:+ n) = [EmptyString; "countries"; n].
Proof.
  intros Hne Hn. unfold segments.
  change ("/countries/" +:+ n)
    with (String "/" (String "c" (String "o" (String "u" (String "n"
           (String "t" (String "r" (String "i" (String "e" (String "s"
           (String "/" n))))))))))).
  cbn [split_slash Ascii.eqb Bool.eqb].
  rewrite (split_slash_no_slash n _ Hn).
  cbv [String.append]. cbn [drop_last_empty].
  destruct (String.eqb_spec n EmptyString); [contradiction | reflexivity].
Qed.

Lemma decode_params_empty : decode_params ∅ = Some ∅.
Proof. reflexivity. Qed.

Lemma decode_params_singleton (k v : string) :
  decode_params (<[k := v]> ∅)
  = (fun n => {[ k := n ]}) <$> decodeURIComponent v.
Proof.
  unfold decode_params. rewrite insert_empty.
  destruct (decodeURIComponent v) as [n|] eqn:E; simpl.
  - rewrite bool_decide_eq_true_2.
    + now rewrite (omap_singleton_Some _ _ _ n E).
    + apply map_Forall_singleton. rewrite E. eauto.
  - rewrite bool_decide_eq_false_2; [reflexivity|].
    intros H. apply map_Forall_singleton in H. rewrite E in H. now destruct H.
Qed.

Lemma router_patterns :
  segments "/countries/refresh" = [EmptyString; "countries"; "refresh"]
  /\ segments "/countries" = [EmptyString; "countries"]
  /\ segments "/countries/:name" = [EmptyString; "countries"; ":name"]
  /\ segments "/status" = [EmptyString; "status"]
  /\ segments "/countries/image" = [EmptyString; "countries"; "image"].
Proof. repeat split; reflexivity. Qed.

Lemma lower_empty (e : string) :
  String.eqb (lower EmptyString) (lower e) = String.eqb e EmptyString.
Proof. destruct e; reflexivity. Qed.

Lemma literal_not_empty (literal b : string) :
  literal <> EmptyString -> truthy_string b = false ->
  String.eqb literal (lower b) = false.
Proof.
  intros Hl Hb. apply negb_false_iff in Hb. apply String.eqb_eq in Hb. subst b.
  apply String.eqb_neq. exact Hl.
Qed.

(** The router in closed form. *)
Lemma resolve_router (req : Request) : resolve router req = route_of req.
Proof.
  destruct router_patterns as (P1 & P2 & P3 & P4 & P5).
  unfold route_of, router, resolve. rewrite P1, P2, P3, P4, P5.
  destruct (segments (url req)) as [|e [|a [|b [|c l]]]];
    cbn [match_segments]; rewrite ?lower_empty;
    change (lower "countries") with "countries";
    change (lower "refresh") with "refresh";
    change (lower "status") with "status";
    change (lower "image") with "image".
  - reflexivity.
  - destruct (String.eqb e EmptyString); reflexivity.
  - destruct (String.eqb e EmptyString),
      (String.eqb "countries" (lower a)), (String.eqb "status" (lower a)),
      (method req); reflexivity.
  - destruct (truthy_string b) eqn:Hb;
      [|rewrite (literal_not_empty "refresh" b) by (discriminate || exact Hb);
        rewrite (literal_not_empty "image" b) by (discriminate || exact Hb)];
      destruct (String.eqb e EmptyString),
        (String.eqb "countries" (lower a)), (String.eqb "status" (lower a));
      try destruct (String.eqb "refresh" (lower b));
      try destruct (String.eqb "image" (lower b));
      cbn [fmap option_fmap option_map andb];
      rewrite ?decode_params_singleton, ?decode_params_empty;
      destruct (decodeURIComponent b);
      destruct (method req); reflexivity.
  - destruct (String.eqb e EmptyString),
      (String.eqb "countries" (lower a)), (truthy_string b),
      (String.eqb "refresh" (lower b)), (String.eqb "image" (lower b)),
      (String.eqb "status" (lower a)); reflexivity.
Qed.

Lemma no_percent_plain (s : string) :
  (forall c, In c (list_ascii_of_string s) -> c <> "%"%char) ->
  decodeURIComponent s = Some s.
Proof.
  unfold decodeURIComponent.
  induction s as [|c s IH]; intros H; [reflexivity|].
  cbn [escapes].
  destruct (Ascii.eqb_spec c "%"%char) as [-> | Hc].
  - exfalso. apply (H "%"%char); [now left | reflexivity].
  - specialize (IH (fun c' Hc' => H c' (or_intror Hc'))).
    destruct (escapes s) as [us|]; [|discriminate].
    cbn in *. now rewrite IH.
Qed.

Lemma route_country (up : Upstream) (q : gmap string QueryValue) (w : World)
    (e n : string) :
  e <> EmptyString -> no_slash e = true -> decodeURIComponent e = Some n ->
  app up {| method := GET; url := "/countries/" +:+ e; query := q |} w
  = (getCountry n w, w)
  /\ app up {| method := DELETE; url := "/countries/" +:+ e; query := q |} w
     = deleteCountry n w.
Proof.
  intros Hne Hn Hd. unfold app. rewrite !resolve_router. unfold route_of.
  cbn [method url]. rewrite (segments_country e Hne Hn).
  change (lower "countries") with "countries".
  apply truthy_string_true in Hne. rewrite Hne, Hd.
  cbn. rewrite lookup_singleton_eq. split; reflexivity.
Qed.

Lemma lower_in (c : ascii) (s : string) :
  In c (list_ascii_of_string s) ->
  In (lower_ascii c) (list_ascii_of_string (lower s)).
Proof.
  induction s as [|a s IH]; simpl; [auto|].
  intros [-> | H]; [now left | right; auto].
Qed.

Lemma route_bad_escape (up : Upstream) (m : Method)
    (q : gmap string QueryValue) (w : World) (e : string) :
  no_slash e = true -> decodeURIComponent e = None ->
  app up {| method := m; url := "/countries/" +:+ e; query := q |} w
  = (bad_request, w).
Proof.
  intros Hn Hd. unfold app. rewrite resolve_router. unfold route_of.
  assert (Hne : e <> EmptyString) by (intros ->; discriminate).
  cbn [method url]. rewrite (segments_country e Hne Hn).
  change (lower "countries") with "countries".
  apply truthy_string_true in Hne. rewrite Hne, Hd.
  assert (Hr : String.eqb "refresh" (lower e) = false).
  { apply String.eqb_neq. intros E.
    assert (Hp : forall c, In c (list_ascii_of_string e) -> c <> "%"%char).
    { intros c Hc ->. apply lower_in in Hc. rewrite <- E in Hc.
      vm_compute in Hc. intuition discriminate. }
    rewrite (no_percent_plain e Hp) in Hd. discriminate. }
  rewrite Hr, andb_false_r. reflexivity.
Qed.

(** ** Lookup and deletion by name

    The collation of the table ignores case: a string and its lower-case
    form have the same weights. *)

Hypothesis ckey_lower : forall s, ckey (lower s) = ckey s.

Lemma sql_eq_true (a b : string) : sql_eq a b = true <-> ckey a = ckey b.
Proof. unfold sql_eq. apply String.eqb_eq. Qed.

Lemma sql_eq_false (a b : string) : sql_eq a b = false <-> ckey a <> ckey b.
Proof. unfold sql_eq. apply String.eqb_neq. Qed.

Lemma sql_eq_lower (a b : string) : sql_eq (lower a) (lower b) = sql_eq a b.
Proof. unfold sql_eq. now rewrite !ckey_lower. Qed.

Lemma filter_all_false (f : Country -> bool) (l : list Country) :
  (forall r, r ∈ l -> f r = false) -> List.filter f l = [].
Proof.
  induction l as [|x l IH]; intros H; simpl; [reflexivity|].
  rewrite (H x) by (apply elem_of_cons; auto).
  apply IH. intros r Hr. apply H, elem_of_cons. auto.
Qed.

Lemma filter_all_true (f : Country -> bool) (l : list Country) :
  (forall r, r ∈ l -> f r = true) -> List.filter f l = l.
Proof.
  induction l as [|x l IH]; intros H; simpl; [reflexivity|].
  rewrite (H x) by (apply elem_of_cons; auto).
  f_equal. apply IH. intros r Hr. apply H, elem_of_cons. auto.
Qed.

Lemma split_distinct (l1 l2 : list Country) (r r' : Country) :
  NoDup (name_keys (l1 ++ r :: l2)) -> r' ∈ l1 ++ l2 ->
  ckey (name (fields r')) <> ckey (name (fields r)).
Proof.
  unfold name_keys. rewrite map_app. simpl. intros H Hin E.
  apply NoDup_app in H as (_ & H1 & H2).
  apply NoDup_cons in H2 as [H2 _].
  apply elem_of_app in Hin as [Hin | Hin].
  - apply (H1 (ckey (name (fields r')))).
    + apply list_elem_of_In, in_map_iff. exists r'.
      split; [reflexivity | now apply list_elem_of_In].
    + rewrite E. apply elem_of_cons. now left.
  - apply H2. rewrite <- E.
    apply list_elem_of_In, in_map_iff. exists r'.
    split; [reflexivity | now apply list_elem_of_In].
Qed.

Lemma filter_split (f : Country -> bool) (l1 l2 : list Country) (r : Country) :
  f r = true -> (forall r', r' ∈ l1 ++ l2 -> f r' = false) ->
  List.filter f (l1 ++ r :: l2) = [r].
Proof.
  intros Hr Hother. rewrite List.filter_app. simpl. rewrite Hr.
  rewrite !filter_all_false; [reflexivity | |];
    intros r' Hr'; apply Hother, elem_of_app; auto.
Qed.

Lemma selectByLowerName_found (s : Store) (l1 l2 : list Country)
    (r : Country) (n : string) :
  unique_names s -> rows s = l1 ++ r :: l2 ->
  lower n = lower (name (fields r)) ->
  selectByLowerName n s = [r].
Proof.
  unfold unique_names, selectByLowerName. intros Hu Hrows Hn.
  rewrite Hrows in *. rewrite (filter_split _ l1 l2 r); [reflexivity | |].
  - rewrite Hn. now apply sql_eq_true.
  - intros r' Hr'. rewrite Hn, sql_eq_lower. apply sql_eq_false.
    eapply split_distinct; eauto.
Qed.

Lemma selectByLowerName_none (s : Store) (n : string) :
  (forall r, r ∈ rows s -> ckey (name (fields r)) <> ckey n) ->
  selectByLowerName n s = [].
Proof.
  intros H. unfold selectByLowerName. rewrite filter_all_false; [reflexivity|].
  intros r Hr. rewrite sql_eq_lower. now apply sql_eq_false, H.
Qed.

Lemma deleteWhereName_found (s : Store) (l1 l2 : list Country) (r : Country) :
  unique_names s -> rows s = l1 ++ r :: l2 ->
  deleteWhereName (name (fields r)) s
  = Some {| rows := l1 ++ l2; next_id := next_id s |}.
Proof.
  unfold unique_names, deleteWhereName. intros Hu Hrows. rewrite Hrows in *.
  assert (Hex : existsb (fun r' => sql_eq (name (fields r')) (name (fields r)))
                  (l1 ++ r :: l2) = true).
  { apply existsb_exists. exists r. split.
    - apply in_or_app. right. now left.
    - now apply sql_eq_true. }
  rewrite Hex. do 2 f_equal.
  rewrite List.filter_app. simpl.
  replace (sql_eq (name (fields r)) (name (fields r))) with true
    by (symmetry; now apply sql_eq_true).
  simpl. rewrite !filter_all_true; [reflexivity | |];
    intros r' Hr'; apply negb_true_iff, sql_eq_false;
    eapply split_distinct; eauto; apply elem_of_app; auto.
Qed.

(** C7 (as amended).  In a table whose names are unique, asking for a row
    by any case variant of its name answers 200 with that row; deleting by
    any case variant answers 204 with an empty body and removes that row
    and no other, after which the same lookup answers 404.  When no row's
    name equals the requested one under the collation of the table, both
    the lookup and the deletion answer 404 and the state is unchanged.
    The router hands [GET] and [DELETE] of [/countries/e] to these two
    handlers with the name that the segment [e] decodes to; when [e] does
    not decode, the answer is 400 whatever the method. *)
Theorem lookup_and_delete_ignore_case (w : World) :
  unique_names (db w) ->
  (forall (r : Country) (n : string),
     r ∈ rows (db w) -> lower n = lower (name (fields r)) ->
     getCountry n w = json 200 (JsonCountry r)
     /\ exists l1 l2,
          rows (db w) = l1 ++ r :: l2
          /\ deleteCountry n w
             = (json 204 NoBody,
                with_db w {| rows := l1 ++ l2; next_id := next_id (db w) |})
          /\ getCountry n (deleteCountry n w).2 = country_not_found)
  /\ (forall n : string,
        (forall r, r ∈ rows (db w) -> ckey (name (fields r)) <> ckey n) ->
        getCountry n w = country_not_found
        /\ deleteCountry n w = (country_not_found, w))
  /\ (forall (up : Upstream) (q : gmap string QueryValue) (e n : string),
        e <> EmptyString -> no_slash e = true ->
        decodeURIComponent e = Some n ->
        app up {| method := GET; url := "/countries/" +:+ e; query := q |} w
        = (getCountry n w, w)
        /\ app up {| method := DELETE; url := "/countries/" +:+ e; query := q |} w
           = deleteCountry n w)
  /\ (forall (up : Upstream) (m : Method) (q : gmap string QueryValue)
             (e : string),
        no_slash e = true -> decodeURIComponent e = None ->
        app up {| method := m; url := "/countries/" +:+ e; query := q |} w
        = ({| status := 400; body := ErrorPage |}, w)).
Proof.
  intros Hu. split; [|split; [|split]].
  - intros r n Hr Hn.
    destruct (list_elem_of_split _ _ Hr) as (l1 & l2 & Hrows).
    pose proof (selectByLowerName_found _ l1 l2 r n Hu Hrows Hn) as Hsel.
    split.
    + unfold getCountry. now rewrite Hsel.
    + exists l1, l2. split; [exact Hrows|].
      assert (Hdel : deleteCountry n w
                     = (json 204 NoBody,
                        with_db w {| rows := l1 ++ l2;
                                     next_id := next_id (db w) |})).
      { unfold deleteCountry. rewrite Hsel.
        now rewrite (deleteWhereName_found _ l1 l2 r Hu Hrows). }
      split; [exact Hdel|]. rewrite Hdel. unfold getCountry. simpl.
      rewrite selectByLowerName_none; [reflexivity|].
      simpl. intros r' Hr'. rewrite <- (ckey_lower n), Hn, ckey_lower.
      unfold unique_names in Hu. rewrite Hrows in Hu.
      eapply split_distinct; eauto.
  - intros n Hnone. unfold getCountry, deleteCountry.
    now rewrite (selectByLowerName_none _ _ Hnone).
  - intros up q e n. apply route_country.
  - intros up m q e. apply route_bad_escape.
Qed.

(** ** Listing and status *)

Lemma gdp_leb_total (a b : option JsValue) :
  gdp_leb a b = true \/ gdp_leb b a = true.
Proof.
  unfold gdp_leb.
  destruct (gdp_rank a) as [ca qa], (gdp_rank b) as [cb qb].
  destruct (Z.ltb_spec ca cb) as [H | H]; [now left|].
  destruct (Z.ltb_spec cb ca) as [H' | H']; [now right|].
  assert (E : ca = cb) by lia. subst cb. rewrite Z.eqb_refl. simpl.
  destruct (Qlt_le_dec qa qb) as [Hq | Hq].
  - left. now apply Qle_bool_iff, Qlt_le_weak.
  - right. now apply Qle_bool_iff.
Qed.

Lemma gdp_leb_spec (a b : option JsValue) :
  gdp_leb a b = true <->
  ((gdp_rank a).1 < (gdp_rank b).1)%Z
  \/ ((gdp_rank a).1 = (gdp_rank b).1 /\ ((gdp_rank a).2 <= (gdp_rank b).2)%Q).
Proof.
  unfold gdp_leb.
  destruct (gdp_rank a) as [ca qa], (gdp_rank b) as [cb qb]. simpl.
  rewrite orb_true_iff, andb_true_iff, Z.ltb_lt, Z.eqb_eq, Qle_bool_iff.
  reflexivity.
Qed.

Lemma gdp_leb_trans (a b c : option JsValue) :
  gdp_leb a b = true -> gdp_leb b c = true -> gdp_leb a c = true.
Proof.
  rewrite !gdp_leb_spec.
  intros [H1 | [E1 H1]] [H2 | [E2 H2]]; [left; lia | left; lia | left; lia |].
  right. split; [lia|]. eapply Qle_trans; eauto.
Qed.

(** The comparison of the engine on the column agrees with the order of
    the numbers. *)
Lemma gdp_leb_before (a b : option JsValue) :
  gdp_leb a b = true -> gdp_before a b.
Proof.
  rewrite gdp_leb_spec. unfold gdp_before.
  destruct a as [[x|[]| |k]|], b as [[y|[]| |k']|]; simpl;
    intros [H | [E H]]; try lia; try discriminate;
    (split; [intros; congruence || reflexivity|]);
    intros x' y' [= <-] [= <-] Nx Ny; simpl in *; auto.
Qed.

Lemma Zleb_total (a b : Z) : Z.leb a b = true \/ Z.leb b a = true.
Proof. rewrite !Z.leb_le. lia. Qed.

Lemma directed_total {A} (d : Direction) (leb : A -> A -> bool) :
  (forall a b, leb a b = true \/ leb b a = true) ->
  forall a b, directed d leb a b = true \/ directed d leb b a = true.
Proof. intros H a b. destruct d; simpl; auto. Qed.

Lemma directed_trans {A} (d : Direction) (leb : A -> A -> bool) :
  (forall a b c, leb a b = true -> leb b c = true -> leb a c = true) ->
  forall a b c, directed d leb a b = true -> directed d leb b c = true ->
                directed d leb a c = true.
Proof. intros H a b c. destruct d; simpl; eauto. Qed.

Lemma ordered_total (o : OrderBy) : Total (ordered o).
Proof.
  intros a b. unfold ordered, order_leb. destruct o as [d | d | d].
  - apply directed_total. intros x y. apply String.leb_total.
  - apply directed_total, gdp_leb_total.
  - apply directed_total, Zleb_total.
Qed.

Lemma string_leb_trans (a b c : string) :
  String.leb a b = true -> String.leb b c = true -> String.leb a c = true.
Proof.
  intros H1 H2. apply Is_true_true. apply Is_true_true in H1, H2.
  exact (transitivity (R := String.le) H1 H2).
Qed.

Lemma ordered_trans (o : OrderBy) : Transitive (ordered o).
Proof.
  intros a b c. unfold ordered, order_leb. destruct o as [d | d | d].
  - apply directed_trans. intros x y z. unfold sql_leb. apply string_leb_trans.
  - apply directed_trans, gdp_leb_trans.
  - apply directed_trans. intros x y z. rewrite !Z.leb_le. lia.
Qed.

Lemma string_leb_compare (a b : string) :
  String.leb a b = true <-> (a ?= b)%string <> Gt.
Proof.
  unfold String.leb. destruct (a ?= b)%string; split; congruence.
Qed.

Lemma StronglySorted_in_order {A} (R : A -> A -> Prop) (l : list A) :
  StronglySorted R l -> in_order R l.
Proof.
  induction 1 as [|x l Hs IH Hall]; intros i j a b Hij Ha Hb.
  - rewrite lookup_nil in Ha. discriminate.
  - destruct j as [|j]; [lia|]. simpl in Hb.
    destruct i as [|i]; simpl in Ha.
    + injection Ha as <-. rewrite Forall_forall in Hall. apply Hall.
      eapply list_elem_of_lookup_2, Hb.
    + eapply (IH i j); eauto. lia.
Qed.

Lemma order_rows_in_order (o : OrderBy) (l : list Country) :
  in_order (ordered o) (order_rows o l).
Proof.
  apply StronglySorted_in_order. unfold order_rows.
  pose proof (ordered_total o). pose proof (ordered_trans o).
  apply (StronglySorted_merge_sort (ordered o)); assumption.
Qed.

Lemma equals_true (column : option string) (v : string) :
  equals column v = true <-> exists c, column = Some c /\ ckey c = ckey v.
Proof.
  unfold equals, sql_eq. destruct column as [c|].
  - rewrite String.eqb_eq. split.
    + intros H. eauto.
    + now intros (c' & [= <-] & H).
  - split; [discriminate | now intros (c' & [=] & _)].
Qed.

Lemma filter_reflects (value : option QueryValue) (s : option string)
    (column : option string) :
  filter_value value = Some s ->
  (if truthy_opt s then equals column (default EmptyString s) else true) = true
  <-> matches_filter value column.
Proof.
  unfold matches_filter, filter_value.
  destruct value as [[v|]|]; intros [= <-]; simpl.
  - destruct (truthy_string v) eqn:E.
    + rewrite equals_true. split.
      * now intros H v' [= <-] _.
      * intros H. apply (H v eq_refl). now apply truthy_string_true.
    + split; [|reflexivity]. intros _ v' [= <-] Hne.
      apply truthy_string_true in Hne. congruence.
  - split; [|reflexivity]. intros _ v' [=].
Qed.

Lemma where_of_reflects (q : gmap string QueryValue) (rs cs : option string)
    (r : Country) :
  filter_value (q !! "region") = Some rs ->
  filter_value (q !! "currency") = Some cs ->
  where_of rs cs r = true <-> row_matches q r.
Proof.
  intros Hr Hc. unfold where_of, row_matches.
  rewrite andb_true_iff, (filter_reflects _ _ _ Hr), (filter_reflects _ _ _ Hc).
  reflexivity.
Qed.

Lemma filter_value_some (v : option QueryValue) :
  v <> Some QNested -> exists s, filter_value v = Some s.
Proof. destruct v as [[s|]|]; simpl; eauto. congruence. Qed.

(** C8 (as amended).  [GET /countries] reaches [getCountries] and leaves
    the state alone.  When [region] or [currency] is given more than once
    or with brackets, the answer is 500.  Otherwise the listing answers
    200 with a rearrangement of exactly the rows that satisfy the filters
    that are given as non-empty strings (a filter that is absent, or
    empty, constrains nothing).  With [sort=gdp_desc] the rows come by
    non-increasing [estimated_gdp], nulls last; with [sort=gdp_asc] by
    non-decreasing [estimated_gdp], nulls first; and otherwise by
    non-decreasing name in the order of the collation. *)
Theorem list_filters_and_orders (up : Upstream) (q : gmap string QueryValue)
    (w : World) :
  let req := {| method := GET; url := "/countries"; query := q |} in
  app up req w = (getCountries req w, w)
  /\ (q !! "region" = Some QNested \/ q !! "currency" = Some QNested ->
      getCountries req w = json 500 (JsonError "Internal server error"))
  /\ (q !! "region" <> Some QNested -> q !! "currency" <> Some QNested ->
      exists l rs cs,
        getCountries req w = json 200 (JsonCountries l)
        /\ l ≡ₚ List.filter (where_of rs cs) (rows (db w))
        /\ (forall r, where_of rs cs r = true <-> row_matches q r)
        /\ (forall r, r ∈ l <-> r ∈ rows (db w) /\ row_matches q r)
        /\ (q !! "sort" = Some (QString "gdp_desc") ->
            in_order (fun a b => gdp_before (estimated_gdp (fields b))
                                            (estimated_gdp (fields a))) l)
        /\ (q !! "sort" = Some (QString "gdp_asc") ->
            in_order (fun a b => gdp_before (estimated_gdp (fields a))
                                            (estimated_gdp (fields b))) l)
        /\ (q !! "sort" <> Some (QString "gdp_desc") ->
            q !! "sort" <> Some (QString "gdp_asc") ->
            in_order (fun a b => (ckey (name (fields a))
                                  ?= ckey (name (fields b)))%string <> Gt) l)).
Proof.
  intros req. split; [|split].
  - unfold app. rewrite resolve_router. reflexivity.
  - unfold getCountries. cbn [query req]. intros [-> | ->]; simpl.
    + reflexivity.
    + now destruct (filter_value (q !! "region")).
  - intros Hr Hc.
    destruct (filter_value_some _ Hr) as (rs & Ers).
    destruct (filter_value_some _ Hc) as (cs & Ecs).
    exists (findMany (where_of rs cs) (orderBy_of (q !! "sort")) (db w)), rs, cs.
    split; [unfold getCountries; cbn [query req]; now rewrite Ers, Ecs|].
    pose proof ordered_total as Htotal.
    unfold findMany.
    split; [apply merge_sort_Permutation|].
    split; [intros r; now apply where_of_reflects|].
    split; [|split; [|split]].
    + intros r. unfold order_rows. rewrite merge_sort_Permutation.
      rewrite list_elem_of_In, filter_In, <- list_elem_of_In.
      now rewrite (where_of_reflects q rs cs r Ers Ecs).
    + intros Hs. unfold orderBy_of. rewrite Hs. simpl.
      intros i j a b Hij Ha Hb.
      apply gdp_leb_before.
      exact (order_rows_in_order (ByEstimatedGdp Desc) _ i j a b Hij Ha Hb).
    + intros Hs. unfold orderBy_of. rewrite Hs. simpl.
      intros i j a b Hij Ha Hb.
      apply gdp_leb_before.
      exact (order_rows_in_order (ByEstimatedGdp Asc) _ i j a b Hij Ha Hb).
    + intros H1 H2.
      assert (Ho : orderBy_of (q !! "sort") = ByName Asc).
      { unfold orderBy_of, strict_equal.
        destruct (q !! "sort") as [[s|]|]; try reflexivity.
        destruct (String.eqb_spec s "gdp_desc") as [-> | _]; [congruence|].
        destruct (String.eqb_spec s "gdp_asc") as [-> | _]; [congruence|].
        reflexivity. }
      rewrite Ho. intros i j a b Hij Ha Hb.
      apply string_leb_compare.
      exact (order_rows_in_order (ByName Asc) _ i j a b Hij Ha Hb).
Qed.

Lemma findFirst_latest (s : Store) :
  match findFirst (ByLastRefreshedAt Desc) s with
  | None => rows s = []
  | Some r0 =>
      r0 ∈ rows s
      /\ forall r, r ∈ rows s -> (last_refreshed_at r <= last_refreshed_at r0)%Z
  end.
Proof.
  unfold findFirst, order_rows.
  pose proof ordered_total as Htotal.
  pose proof (ordered_trans (ByLastRefreshedAt Desc)) as Htrans.
  pose proof (merge_sort_Permutation (ordered (ByLastRefreshedAt Desc)) (rows s))
    as Hp.
  pose proof (StronglySorted_merge_sort (ordered (ByLastRefreshedAt Desc)) (rows s))
    as Hs.
  destruct (merge_sort _ (rows s)) as [|r0 l]; simpl.
  - symmetry in Hp. now apply Permutation_nil_r in Hp.
  - split.
    + rewrite <- Hp. apply elem_of_cons. now left.
    + intros r Hr. rewrite <- Hp in Hr.
      apply elem_of_cons in Hr as [-> | Hr]; [lia|].
      apply StronglySorted_inv in Hs as [_ Hall].
      rewrite Forall_forall in Hall. apply Hall in Hr.
      unfold ordered, order_leb in Hr. simpl in Hr. now apply Z.leb_le in Hr.
Qed.

(** C9.  [GET /status] reaches [getStatus] and leaves the state alone.  The
    answer is 200 with the number of rows and, when the table is empty, a
    null [last_refreshed_at]; otherwise [last_refreshed_at] is the stamp
    of a row and no row has a later one. *)
Theorem status_reports_count_and_latest (up : Upstream) (w : World)
    (q : gmap string QueryValue) :
  app up {| method := GET; url := "/status"; query := q |} w = (getStatus w, w)
  /\ exists last,
       getStatus w = json 200 (JsonStatus (length (rows (db w))) last)
       /\ (rows (db w) = [] -> last = None)
       /\ (rows (db w) <> [] ->
           exists r0, r0 ∈ rows (db w) /\ last = Some (last_refreshed_at r0)
             /\ forall r, r ∈ rows (db w) ->
                  (last_refreshed_at r <= last_refreshed_at r0)%Z).
Proof.
  split; [unfold app; rewrite resolve_router; reflexivity|].
  eexists. split; [reflexivity|].
  pose proof (findFirst_latest (db w)) as H.
  destruct (findFirst _ (db w)) as [r0|]; simpl.
  - destruct H as [Hin Hmax]. split.
    + intros E. rewrite E in Hin. now apply elem_of_nil in Hin.
    + intros _. exists r0. auto.
  - split; [reflexivity|]. intros Hne. contradiction.
Qed.

(** * Further properties of the controllers *)

(** ** The outcomes of a refresh *)

Lemma createMany_emptied (data : list CountryCreateManyInput) (s : Store) :
  createMany data {| rows := []; next_id := next_id s |}
  = if (forallb accepts data
        && bool_decide (NoDup (map (fun d => ckey (name (data_fields d))) data)))%bool
    then Some (replaced s data)
    else None.
Proof.
  unfold createMany, replaced. simpl. now rewrite name_keys_number_rows.
Qed.

Lemma refreshCountries_validated (up : Upstream) (w : World)
    (cs : list Raw.country) (rates : gmap string Q) :
  fetchCountries up = Some cs ->
  fetchExchangeRates up = Some rates ->
  let data := candidates rates (now up) (random up) 0 cs in
  Forall (fun d => valid_candidate (data_fields d)) data ->
  refreshCountries up w
  = if (forallb accepts data
        && bool_decide (NoDup (map (fun d => ckey (name (data_fields d))) data)))%bool
    then
      let s := replaced (db w) data in
      let rendered :=
        generateSummaryImage (count s) (top5Gdp s) (now up) (files w) in
      (if rendered.2
       then json 200 (JsonMessage "Countries refreshed successfully")
       else internal_server_error,
       {| db := s; files := rendered.1; cwd := cwd w |})
    else (internal_server_error, w).
Proof.
  intros Hc Hr data Hall. unfold refreshCountries. rewrite Hc, Hr.
  rewrite (processCountries_valid _ _ _ _ _ _ Hall). simpl.
  rewrite transaction_replace, createMany_emptied. fold data.
  destruct (forallb accepts data && _)%bool; [|reflexivity].
  simpl. destruct (generateSummaryImage _ _ _ _) as [files' returned].
  simpl. destruct returned; reflexivity.
Qed.

Lemma refreshCountries_invalid (up : Upstream) (w : World)
    (cs : list Raw.country) (rates : gmap string Q) :
  fetchCountries up = Some cs ->
  fetchExchangeRates up = Some rates ->
  ~ Forall (fun d => valid_candidate (data_fields d))
           (candidates rates (now up) (random up) 0 cs) ->
  exists response,
    status response = 400 /\ refreshCountries up w = (response, w).
Proof.
  intros Hc Hr Hbad. unfold refreshCountries. rewrite Hc, Hr.
  destruct (processCountries rates (now up) (random up) 0 cs []) as [r|data] eqn:E.
  - exists r. split; [|reflexivity]. eapply processCountries_inl_status, E.
  - exfalso. apply Hbad. now apply processCountries_inr in E as [_ H].
Qed.

Lemma candidates_valid_dec rates now random (cs : list Raw.country) (i : nat) :
  Forall (fun d => valid_candidate (data_fields d))
         (candidates rates now random i cs)
  \/ ~ Forall (fun d => valid_candidate (data_fields d))
              (candidates rates now random i cs).
Proof.
  destruct (processCountries rates now random i cs []) as [r|data] eqn:E.
  - right. intros H. rewrite (processCountries_valid _ _ _ _ _ _ H) in E.
    discriminate.
  - left. now apply processCountries_inr in E as [_ H].
Qed.

(** X1.  A refresh answers 200, 400, 500 or 503.  It answers 503 exactly
    when one of the two fetches reported no data, and 400 exactly when both
    returned data and some candidate of the cycle does not pass the
    schema. *)
Theorem refresh_status_classification (up : Upstream) (w : World) :
  let r := (refreshCountries up w).1 in
  (status r = 200 \/ status r = 400 \/ status r = 500 \/ status r = 503)
  /\ (status r = 503 <->
      fetchCountries up = None \/ fetchExchangeRates up = None)
  /\ (status r = 400 <->
      exists cs rates,
        fetchCountries up = Some cs /\ fetchExchangeRates up = Some rates
        /\ ~ Forall (fun d => valid_candidate (data_fields d))
                    (candidates rates (now up) (random up) 0 cs)).
Proof.
  intros r. subst r.
  destruct (fetchCountries up) as [cs|] eqn:Hc.
  2:{ unfold refreshCountries. rewrite Hc. simpl.
      split; [auto|]. split.
      - split; auto.
      - split; [discriminate|]. now intros (? & ? & [=] & _). }
  destruct (fetchExchangeRates up) as [rates|] eqn:Hr.
  2:{ unfold refreshCountries. rewrite Hc, Hr. simpl.
      split; [auto|]. split.
      - split; auto.
      - split; [discriminate|]. now intros (? & ? & _ & [=] & _). }
  destruct (candidates_valid_dec rates (now up) (random up) cs 0) as [Hall | Hbad].
  - rewrite (refreshCountries_validated up w cs rates Hc Hr Hall).
    assert (Hst : forall x : Response * World,
              x.1 = json 200 (JsonMessage "Countries refreshed successfully")
              \/ x.1 = internal_server_error ->
              (status x.1 = 200 \/ status x.1 = 400 \/ status x.1 = 500
               \/ status x.1 = 503)
              /\ status x.1 <> 503 /\ status x.1 <> 400).
    { intros x [-> | ->]; simpl; repeat split; auto; discriminate. }
    match goal with |- context [status (?x).1 = 200] =>
      destruct (Hst x) as (H1 & H2 & H3) end.
    { destruct (forallb accepts _ && _)%bool; simpl; [|now right].
      destruct (generateSummaryImage _ _ _ _).2; auto. }
    split; [exact H1|]. split.
    + split; [intros E; contradiction | intros [[=] | [=]]].
    + split; [intros E; contradiction|].
      intros (cs' & rates' & [= <-] & [= <-] & Hbad). contradiction.
  - destruct (refreshCountries_invalid up w cs rates Hc Hr Hbad)
      as (response & Hs & ->). simpl. rewrite Hs.
    split; [auto|]. split.
    + split; [discriminate | intros [[=] | [=]]].
    + split; [|reflexivity]. intros _. exists cs, rates. auto.
Qed.

(** X2.  A refresh never leaves a mix of old and new rows: afterwards
    either the table is untouched or it is exactly the validated, pairwise
    differently named candidates of the cycle.  An answer of 400 or 503
    leaves the whole process state as it was, and no refresh changes the
    working directory. *)
Theorem refresh_all_or_nothing (up : Upstream) (w : World) :
  let r := (refreshCountries up w).1 in
  let w' := (refreshCountries up w).2 in
  cwd w' = cwd w
  /\ (status r = 400 \/ status r = 503 -> w' = w)
  /\ (db w' = db w
      \/ exists cs rates,
           fetchCountries up = Some cs /\ fetchExchangeRates up = Some rates
           /\ let data := candidates rates (now up) (random up) 0 cs in
              Forall (fun d => valid_candidate (data_fields d)) data
              /\ NoDup (map (fun d => ckey (name (data_fields d))) data)
              /\ db w' = replaced (db w) data).
Proof.
  intros r w'. subst r w'.
  destruct (fetchCountries up) as [cs|] eqn:Hc.
  2:{ unfold refreshCountries. rewrite Hc. simpl. auto. }
  destruct (fetchExchangeRates up) as [rates|] eqn:Hr.
  2:{ unfold refreshCountries. rewrite Hc, Hr. simpl. auto. }
  destruct (candidates_valid_dec rates (now up) (random up) cs 0) as [Hall | Hbad].
  - rewrite (refreshCountries_validated up w cs rates Hc Hr Hall).
    destruct (forallb accepts _) eqn:Ha; simpl; [|auto].
    destruct (bool_decide _) eqn:Hn; simpl; [|auto].
    apply bool_decide_eq_true in Hn.
    split; [reflexivity|]. split.
    + destruct (generateSummaryImage _ _ _ _).2; simpl;
        intros [[=] | [=]].
    + right. exists cs, rates. auto.
  - destruct (refreshCountries_invalid up w cs rates Hc Hr Hbad)
      as (response & Hs & ->). simpl. auto.
Qed.

(** X3.  When both fetches return data, every candidate passes the schema,
    the engine accepts every candidate, their names differ pairwise under
    the collation and the renderer returns, the refresh answers 200, the
    table is exactly the candidates numbered from the next key, and the
    files are those the renderer left. *)
Theorem refresh_succeeds (up : Upstream) (w : World)
    (cs : list Raw.country) (rates : gmap string Q) :
  fetchCountries up = Some cs ->
  fetchExchangeRates up = Some rates ->
  let data := candidates rates (now up) (random up) 0 cs in
  let s := replaced (db w) data in
  let rendered := generateSummaryImage (count s) (top5Gdp s) (now up) (files w) in
  Forall (fun d => valid_candidate (data_fields d)) data ->
  forallb accepts data = true ->
  NoDup (map (fun d => ckey (name (data_fields d))) data) ->
  rendered.2 = true ->
  refreshCountries up w
  = (json 200 (JsonMessage "Countries refreshed successfully"),
     {| db := s; files := rendered.1; cwd := cwd w |})
  /\ count s = length cs.
Proof.
  intros Hc Hr data s rendered Hall Ha Hn Hret.
  rewrite (refreshCountries_validated up w cs rates Hc Hr Hall).
  fold data. rewrite Ha. rewrite bool_decide_eq_true_2 by exact Hn. simpl.
  fold s. fold rendered. rewrite Hret. split; [reflexivity|].
  unfold count, s, replaced, data. simpl.
  now rewrite number_rows_length, candidates_length.
Qed.

(** X4.  The image is rendered after the transaction has committed: when
    the renderer throws, the refresh answers 500 but the table has already
    been replaced by the candidates of the cycle. *)
Theorem render_failure_keeps_commit (up : Upstream) (w : World)
    (cs : list Raw.country) (rates : gmap string Q) :
  fetchCountries up = Some cs ->
  fetchExchangeRates up = Some rates ->
  let data := candidates rates (now up) (random up) 0 cs in
  let s := replaced (db w) data in
  let rendered := generateSummaryImage (count s) (top5Gdp s) (now up) (files w) in
  Forall (fun d => valid_candidate (data_fields d)) data ->
  forallb accepts data = true ->
  NoDup (map (fun d => ckey (name (data_fields d))) data) ->
  rendered.2 = false ->
  refreshCountries up w
  = (internal_server_error, {| db := s; files := rendered.1; cwd := cwd w |})
  /\ map fields (rows s) = map data_fields data.
Proof.
  intros Hc Hr data s rendered Hall Ha Hn Hret.
  rewrite (refreshCountries_validated up w cs rates Hc Hr Hall).
  fold data. rewrite Ha. rewrite bool_decide_eq_true_2 by exact Hn. simpl.
  fold s. fold rendered. rewrite Hret. split; [reflexivity|].
  apply number_rows_fields.
Qed.

(** X5.  An empty list of countries is not an unavailable upstream: the
    refresh goes on and empties the table, calls the renderer with a total
    of zero and no top rows, and answers 200 when the renderer returns. *)
Theorem empty_list_wipes_table (up : Upstream) (w : World)
    (rates : gmap string Q) :
  fetchCountries up = Some [] ->
  fetchExchangeRates up = Some rates ->
  let rendered := generateSummaryImage 0 [] (now up) (files w) in
  refreshCountries up w
  = (if rendered.2
     then json 200 (JsonMessage "Countries refreshed successfully")
     else internal_server_error,
     {| db := {| rows := []; next_id := next_id (db w) |};
        files := rendered.1; cwd := cwd w |}).
Proof.
  intros Hc Hr rendered.
  rewrite (refreshCountries_validated up w [] rates Hc Hr); [|constructor].
  simpl. unfold replaced. simpl. rewrite Z.add_0_r. reflexivity.
Qed.

(** ** The shape of a candidate *)

Lemma or_null_not_empty (o : option string) : or_null o <> Some EmptyString.
Proof.
  unfold or_null. destruct o as [s|]; simpl; [|discriminate].
  destruct (truthy_string s) eqn:E; [|discriminate].
  intros [= ->]. discriminate.
Qed.

(** X6.  In every candidate, [capital], [region] and [flag_url] are null
    or non-empty strings, never the empty string.  An [exchange_rate], when
    present, belongs to the candidate's currency code, which is then a
    non-empty string: it is either the entry of the rates table for that
    code, which is then not zero, or, when the table has no entry for the
    code, the property of that name that every object inherits.
    [estimated_gdp] is null exactly when the currency code is a non-empty
    string and the [exchange_rate] is null; with a null [exchange_rate] it
    is otherwise [0]. *)
Theorem candidate_shape (rates : gmap string Q) (u : Q) (country : Raw.country) :
  let p := processCountry rates u country in
  (capital p <> Some EmptyString /\ region p <> Some EmptyString
   /\ flag_url p <> Some EmptyString)
  /\ (forall v, exchange_rate p = Some v ->
      exists c, currency_code p = Some c /\ c <> EmptyString
        /\ ((exists r, v = Num r /\ rates !! c = Some r /\ ~ (r == 0)%Q)
            \/ (v = Inherited c /\ rates !! c = None
                /\ c ∈ object_prototype_keys)))
  /\ (estimated_gdp p = None <->
      (exists c, currency_code p = Some c /\ c <> EmptyString)
      /\ exchange_rate p = None)
  /\ (exchange_rate p = None ->
      estimated_gdp p = None \/ estimated_gdp p = Some (Num 0)).
Proof.
  intros p. subst p. simpl.
  split; [repeat split; apply or_null_not_empty|].
  unfold exchangeRate, estimatedGdp, property.
  destruct (currencyCode country) as [c|]; cbn [truthy_opt].
  2:{ split; [discriminate|]. split; [|auto].
      split; [discriminate | now intros [(c & [=] & _) _]]. }
  destruct (truthy_string c) eqn:Hc.
  - assert (Hne : c <> EmptyString) by now apply truthy_string_true.
    destruct (rates !! c) as [r|] eqn:Hr.
    + cbn [truthy_value]. destruct (truthy_number r) eqn:Ht.
      * cbn [truthy_value]. rewrite Ht. split; [|split].
        -- intros v [= <-]. exists c. split; [reflexivity|]. split; [exact Hne|].
           left. exists r. split; [reflexivity|]. split; [exact Hr|].
           intros Hz. apply truthy_number_false in Hz. congruence.
        -- split; [discriminate | intros [_ E]; discriminate E].
        -- discriminate.
      * split; [discriminate|]. split; [|auto]. split; eauto.
    + destruct (inherited c) eqn:Hi; cbn [truthy_value].
      * split; [|split].
        -- intros v [= <-]. exists c. split; [reflexivity|]. split; [exact Hne|].
           right. split; [reflexivity|]. split; [exact Hr|].
           now apply inherited_true.
        -- split; [discriminate | intros [_ E]; discriminate E].
        -- discriminate.
      * split; [discriminate|]. split; [|auto]. split; eauto.
  - simpl. split; [discriminate|]. split; [|auto].
    split; [discriminate|]. intros [(c' & [= <-] & Hne) _].
    apply truthy_string_true in Hne. congruence.
Qed.

Lemma randomMultiplier_nonneg (u : Q) :
  (0 <= u)%Q -> js_le (Num 0) (randomMultiplier u).
Proof.
  intros Hu. unfold randomMultiplier. cbn [js_mul to_number].
  assert (L : js_le (Num 0) (binary64 (u * 1000))).
  { rewrite <- binary64_0. apply binary64_le. lra. }
  destruct (binary64 (u * 1000)) as [a|[]| |]; simpl in L; try contradiction.
  - cbn [js_add to_number]. rewrite <- binary64_0. apply binary64_le. lra.
  - exact I.
Qed.

Lemma is_negative_nonneg (q : Q) : (0 <= q)%Q -> is_negative q = false.
Proof.
  intros H. unfold is_negative. apply Z.ltb_ge.
  unfold Qle in H. simpl in H. lia.
Qed.

(** X7.  With a draw that is not negative, a candidate that passes the
    schema has an [estimated_gdp] that is null or a number that is not
    negative. *)
Theorem valid_candidate_gdp_nonnegative (rates : gmap string Q) (u : Q)
    (country : Raw.country) :
  (0 <= u)%Q ->
  let p := processCountry rates u country in
  valid_candidate p ->
  forall g, estimated_gdp p = Some g -> js_le (Num 0) g.
Proof.
  intros Hu p (_ & (n & Hn & Hpop) & Hrate & Hgdp) g Hg.
  pose proof (Hgdp g Hg) as Ng. revert Hg. subst p.
  change (estimated_gdp (processCountry rates u country))
    with (estimatedGdp (Raw.population country) (currencyCode country)
            (exchangeRate rates (currencyCode country)) u).
  unfold estimatedGdp.
  assert (HP : (0 <= Raw.population country)%Q).
  { simpl in Hpop. rewrite Hpop. change 0%Q with (inject_Z 0).
    now rewrite <- Zle_Qle. }
  destruct (exchangeRate_cases rates (currencyCode country))
    as [Hx | [(r & Hx) | (k & Hx)]];
    pose proof (Hrate _ Hx) as Hpos || clear Hrate; rewrite Hx.
  - destruct (truthy_opt _); [discriminate|]. intros [= <-]. apply Qle_refl.
  - cbn [positive_value] in Hpos. cbn [truthy_value].
    rewrite (truthy_number_positive r Hpos). intros [= <-].
    assert (Hz : js_div (Num 0) (Num r) = Num 0).
    { cbn [js_div to_number]. rewrite (is_zero_positive r Hpos).
      apply binary64_zero. unfold Qdiv. ring. }
    pose proof (randomMultiplier_nonneg u Hu) as Hm.
    destruct (randomMultiplier u) as [m|[]| |]; simpl in Hm; try contradiction.
    + rewrite <- Hz. apply js_div_le; [exact Hpos|].
      cbn [js_mul to_number]. rewrite <- binary64_0. apply binary64_le.
      now apply Qmult_le_0_compat.
    + cbn [js_mul to_number] in *.
      destruct (is_zero (Raw.population country)).
      * destruct Ng.
      * rewrite (is_negative_nonneg _ HP). cbn [xorb js_div to_number].
        rewrite (is_negative_positive r Hpos). exact I.
  - destruct Hpos.
Qed.

(** ** What every request does to the table *)

Lemma refreshCountries_db (up : Upstream) (w : World) :
  db (refreshCountries up w).2 = db w
  \/ exists data,
       Forall (fun d => valid_candidate (data_fields d)) data
       /\ db (refreshCountries up w).2 = replaced (db w) data.
Proof.
  destruct (fetchCountries up) as [cs|] eqn:Hc.
  2:{ unfold refreshCountries. rewrite Hc. simpl. auto. }
  destruct (fetchExchangeRates up) as [rates|] eqn:Hr.
  2:{ unfold refreshCountries. rewrite Hc, Hr. simpl. auto. }
  destruct (candidates_valid_dec rates (now up) (random up) cs 0) as [Hall | Hbad].
  - rewrite (refreshCountries_validated up w cs rates Hc Hr Hall).
    destruct (forallb accepts _ && _)%bool; simpl; eauto.
  - destruct (refreshCountries_invalid up w cs rates Hc Hr Hbad)
      as (response & Hs & ->). simpl. auto.
Qed.

Lemma deleteCountry_db (n : string) (w : World) :
  db (deleteCountry n w).2 = db w
  \/ exists f,
       db (deleteCountry n w).2
       = {| rows := List.filter f (rows (db w)); next_id := next_id (db w) |}.
Proof.
  unfold deleteCountry.
  destruct (selectByLowerName n (db w)) as [|c l]; [now left|].
  unfold deleteWhereName. destruct (existsb _ _); [|now left].
  right. eexists. reflexivity.
Qed.

Lemma app_db (up : Upstream) (req : Request) (w : World) :
  db (app up req w).2 = db w
  \/ (exists data,
        Forall (fun d => valid_candidate (data_fields d)) data
        /\ db (app up req w).2 = replaced (db w) data)
  \/ (exists f,
        db (app up req w).2
        = {| rows := List.filter f (rows (db w)); next_id := next_id (db w) |}).
Proof.
  unfold app.
  destruct (resolve router req) as [[] params| |]; simpl; auto.
  - destruct (refreshCountries_db up w); auto.
  - destruct (deleteCountry_db (default EmptyString (params !! "name")) w); auto.
Qed.

Lemma number_rows_valid (data : list CountryCreateManyInput) :
  Forall (fun d => valid_candidate (data_fields d)) data ->
  forall n, Forall (fun r => valid_candidate (fields r)) (number_rows n data).
Proof. induction 1; intros n; simpl; constructor; auto. Qed.

Lemma Forall_list_filter {A} (P : A -> Prop) (f : A -> bool) (l : list A) :
  Forall P l -> Forall P (List.filter f l).
Proof.
  induction 1 as [|x l Hx Hl IH]; simpl; [constructor|].
  destruct (f x); [constructor|]; auto.
Qed.

Lemma number_rows_ids (data : list CountryCreateManyInput) :
  forall n,
  Forall (fun r => (n <= id r < n + Z.of_nat (length data))%Z)
         (number_rows n data)
  /\ NoDup (map id (number_rows n data)).
Proof.
  induction data as [|d data IH]; intros n; simpl.
  - split; constructor.
  - destruct (IH (n + 1)%Z) as [Hran Hnd]. split.
    + constructor; [simpl; lia|].
      eapply Forall_impl; [exact Hran|]. simpl. intros r Hr. lia.
    + apply NoDup_cons. split; [|exact Hnd].
      intros Hin. apply list_elem_of_In, in_map_iff in Hin as (r & Hid & Hr).
      rewrite Forall_forall in Hran. apply list_elem_of_In, Hran in Hr. lia.
Qed.

Lemma NoDup_map_filter {A B} (g : A -> B) (f : A -> bool) (l : list A) :
  NoDup (map g l) -> NoDup (map g (List.filter f l)).
Proof.
  induction l as [|x l IH]; simpl; intros H; [exact H|].
  apply NoDup_cons in H as [Hnot Hl]. destruct (f x); simpl; [|auto].
  apply NoDup_cons. split; [|auto].
  intros Hin. apply Hnot.
  apply list_elem_of_In, in_map_iff in Hin as (y & Hy & Hin).
  apply filter_In in Hin as [Hin _].
  apply list_elem_of_In, in_map_iff. eauto.
Qed.

(** X8.  Nothing that fails the schema is ever in the table: the rows of
    the empty table all pass it, and after any request served from a table
    whose rows all pass it they still all do. *)
Theorem table_rows_stay_valid :
  rows_valid empty_store
  /\ forall (up : Upstream) (req : Request) (w : World),
       rows_valid (db w) -> rows_valid (db (app up req w).2).
Proof.
  split; [constructor|].
  intros up req w H. unfold rows_valid in *.
  destruct (app_db up req w) as [-> | [(data & Hall & ->) | (f & ->)]]; simpl.
  - exact H.
  - now apply number_rows_valid.
  - now apply Forall_list_filter.
Qed.

(** X9.  The surrogate keys stay a key: in the empty table and after any
    request served from a table where it held, the keys of the rows are
    pairwise different and below the next key.  The next key never
    decreases, and every row of the table after a request either was
    there before or has a key that had not been given out before. *)
Theorem primary_keys_stay_fresh :
  ids_fresh empty_store
  /\ forall (up : Upstream) (req : Request) (w : World),
       ids_fresh (db w) ->
       let w' := (app up req w).2 in
       ids_fresh (db w')
       /\ (next_id (db w) <= next_id (db w'))%Z
       /\ forall r, r ∈ rows (db w') ->
            r ∈ rows (db w) \/ (next_id (db w) <= id r)%Z.
Proof.
  split; [split; constructor|].
  intros up req w [Hnd Hlt] w'. subst w'. unfold ids_fresh.
  destruct (app_db up req w) as [-> | [(data & Hall & ->) | (f & ->)]]; simpl.
  - repeat split; auto. lia.
  - destruct (number_rows_ids data (next_id (db w))) as [Hran Hnd'].
    repeat split.
    + exact Hnd'.
    + eapply Forall_impl; [exact Hran|]. simpl. intros r Hr. lia.
    + lia.
    + intros r Hr. right. rewrite Forall_forall in Hran.
      apply Hran in Hr. lia.
  - repeat split.
    + now apply NoDup_map_filter.
    + now apply Forall_list_filter.
    + lia.
    + intros r Hr. left.
      apply list_elem_of_In, filter_In in Hr as [Hr _].
      now apply list_elem_of_In.
Qed.

(** ** The details of a validation failure *)

(** X10.  The [details] of a validation failure name exactly the fields
    that failed and nothing else: [name] when the name is empty,
    [population] when it is not a non-negative integer, [exchange_rate]
    when it is present and not a positive number, [estimated_gdp] when it
    is present and not a number.  Each field carries one message, the one
    of its last failed check: a negative population is reported as such
    even when it is also not an integer.  A value that is no number is
    reported with the name of its type: [nan], [function], or [object]
    for the inherited [__proto__]. *)
Theorem details_name_the_failed_fields (p : ProcessedCountry) :
  let details := details_of (parse p) in
  (is_Some (details !! "name") <-> name p = EmptyString)
  /\ (is_Some (details !! "population") <->
      ~ exists n : Z, (0 <= n)%Z /\ (population p == inject_Z n)%Q)
  /\ (is_Some (details !! "exchange_rate") <->
      exists v, exchange_rate p = Some v /\ ~ positive_value v)
  /\ (is_Some (details !! "estimated_gdp") <->
      exists v, estimated_gdp p = Some v /\ ~ is_number v)
  /\ (forall f, is_Some (details !! f) ->
      f = "name" \/ f = "population" \/ f = "exchange_rate"
      \/ f = "estimated_gdp")
  /\ (name p = EmptyString ->
      details !! "name" = Some "String must contain at least 1 character(s)")
  /\ (~ (0 <= population p)%Q ->
      details !! "population"
      = Some "Number must be greater than or equal to 0")
  /\ ((0 <= population p)%Q ->
      ~ (exists n : Z, (population p == inject_Z n)%Q) ->
      details !! "population" = Some "Expected integer, received float")
  /\ (forall r, exchange_rate p = Some (Num r) -> ~ (0 < r)%Q ->
      details !! "exchange_rate" = Some "Number must be greater than 0")
  /\ (estimated_gdp p = Some NaN ->
      details !! "estimated_gdp" = Some "Expected number, received nan")
  /\ (forall k, exchange_rate p = Some (Inherited k) -> k <> "__proto__" ->
      details !! "exchange_rate" = Some "Expected number, received function")
  /\ (exchange_rate p = Some (Inherited "__proto__") ->
      details !! "exchange_rate" = Some "Expected number, received object").
Proof.
  intros details. subst details.
  rewrite details_name, details_population, details_exchange_rate,
    details_estimated_gdp.
  split; [|split; [|split; [|split; [|split; [|split; [|split; [|split;
    [|split; [|split; [|split]]]]]]]]]].
  - destruct (String.eqb_spec (name p) EmptyString) as [E | E].
    + split; eauto.
    + split; [intros [x Hx]; discriminate | contradiction].
  - rewrite <- nonnegative_integer_spec.
    destruct (nonnegative (population p)), (is_integer (population p));
      split; eauto; try (intros [x Hx]; discriminate);
      try (intros H; exfalso; apply H; auto);
      intros _ [? ?]; discriminate.
  - destruct (exchange_rate p) as [v|]; cbn [positive_issues].
    + destruct v as [r|[]| |k]; cbn [positive_issues positive_value].
      * destruct (positive_number r) eqn:E; simpl.
        -- apply positive_number_spec in E. split.
           ++ intros [x Hx]; discriminate.
           ++ intros (v & [= <-] & Hv). now destruct Hv.
        -- split; [|eauto]. intros _. exists (Num r). split; [reflexivity|].
           simpl. intros Hpos. apply positive_number_spec in Hpos. congruence.
      * simpl. split; [|eauto]. intros _. exists (Infinity true).
        split; [reflexivity | simpl; discriminate].
      * simpl. split; [intros [x Hx]; discriminate|].
        intros (v & [= <-] & Hv). now destruct Hv.
      * simpl. split; [|eauto]. intros _. exists NaN. split; [reflexivity | auto].
      * simpl. split; [|eauto]. intros _. exists (Inherited k).
        split; [reflexivity | auto].
    + simpl. split; [intros [x Hx]; discriminate | intros (v & [=] & _)].
  - destruct (estimated_gdp p) as [v|]; cbn [number_issues].
    + destruct v as [r|s| |k]; cbn [number_issues is_number]; simpl.
      * split; [intros [x Hx]; discriminate|].
        intros (v & [= <-] & Hv). now destruct Hv.
      * split; [intros [x Hx]; discriminate|].
        intros (v & [= <-] & Hv). now destruct Hv.
      * split; [|eauto]. intros _. exists NaN. split; [reflexivity | auto].
      * split; [|eauto]. intros _. exists (Inherited k).
        split; [reflexivity | auto].
    + simpl. split; [intros [x Hx]; discriminate | intros (v & [=] & _)].
  - intros f Hf.
    destruct (decide (f = "name")) as [|N1]; [auto|].
    destruct (decide (f = "population")) as [|N2]; [auto|].
    destruct (decide (f = "exchange_rate")) as [|N3]; [auto|].
    destruct (decide (f = "estimated_gdp")) as [|N4]; [auto|].
    rewrite (details_other p f N1 N2 N3 N4) in Hf. now destruct Hf.
  - intros ->. reflexivity.
  - intros Hneg. destruct (nonnegative (population p)) eqn:E; [|reflexivity].
    apply nonnegative_spec in E. contradiction.
  - intros Hpos Hni. apply nonnegative_spec in Hpos. rewrite Hpos.
    destruct (is_integer (population p)) eqn:E; [|reflexivity].
    apply is_integer_spec in E. contradiction.
  - intros r -> Hnp. cbn [positive_issues].
    destruct (positive_number r) eqn:E; [|reflexivity].
    apply positive_number_spec in E. contradiction.
  - intros ->. reflexivity.
  - intros k -> Hk. apply String.eqb_neq in Hk.
    cbv [positive_issues expected_number received]. rewrite Hk. reflexivity.
  - intros ->. reflexivity.
Qed.

(** ** The routes that can be reached *)

(** X11.  No request reaches [getImage]: whatever the router dispatches,
    it is another handler, because every path that matches
    [/countries/image] matches the earlier [/countries/:name]. *)
Theorem getImage_is_unreachable (req : Request) (h : Handler)
    (params : gmap string string) :
  dispatch router req = Some (h, params) -> h <> GetImage.
Proof.
  unfold dispatch. rewrite resolve_router. unfold route_of.
  destruct (segments (url req)) as [|e [|a [|b [|c l]]]]; try discriminate;
    repeat match goal with
           | |- context [if ?b then _ else _] => destruct b
           | |- context [match decodeURIComponent ?b with _ => _ end] =>
               destruct (decodeURIComponent b)
           | |- context [match method ?r with _ => _ end] => destruct (method r)
           end;
    intros [= <- _]; discriminate.
Qed.

(** X12.  What the router does with a request depends on the method and on
    the segments of the path, as [route_of] tells: the literal segments are
    compared without regard to case, one slash at the end is overlooked,
    and an empty segment matches nothing.  A request that no route takes
    is answered 404 by the application with the state unchanged, and for a
    request without a query string the message echoes the path; a request
    for [/countries/] followed by one segment that cannot be decoded is
    answered 400.  A path with an empty segment, as in
    [/countries//Nigeria], is not routed. *)
Theorem unrouted_requests_get_404 (up : Upstream) (req : Request) (w : World) :
  resolve router req = route_of req
  /\ (route_of req = Unrouted ->
      status (app up req w).1 = 404 /\ (app up req w).2 = w)
  /\ (route_of req = Unrouted -> query req = ∅ ->
      app up req w
      = (json 404 (JsonError ("Route " +:+ url req +:+ " not found")), w))
  /\ (route_of req = BadParam ->
      app up req w = ({| status := 400; body := ErrorPage |}, w))
  /\ (forall (m : Method) (q : gmap string QueryValue) (n : string),
      route_of {| method := m; url := "/countries//" +:+ n; query := q |}
      = Unrouted).
Proof.
  split; [apply resolve_router|].
  split; [|split; [|split]].
  - intros H. unfold app. rewrite resolve_router, H. auto.
  - intros H _. unfold app. now rewrite resolve_router, H.
  - intros H. unfold app. now rewrite resolve_router, H.
  - intros m q n. unfold route_of, segments. cbn [url].
    change ("/countries//" +:+ n)
      with (String "/" (String "c" (String "o" (String "u" (String "n"
             (String "t" (String "r" (String "i" (String "e" (String "s"
             (String "/" (String "/" n)))))))))))).
    cbn [split_slash Ascii.eqb Bool.eqb]. cbv [String.append].
    destruct (split_slash n EmptyString) as [|x [|y l]] eqn:E.
    + now apply split_slash_not_nil in E.
    + cbn [drop_last_empty].
      destruct (String.eqb x EmptyString); [|reflexivity].
      destruct m; reflexivity.
    + cbn [drop_last_empty]. reflexivity.
Qed.

(** ** Lookup and deletion in any table *)

Lemma selectByLowerName_cases (n : string) (s : Store) :
  (selectByLowerName n s = []
   /\ forall r, r ∈ rows s -> ckey (name (fields r)) <> ckey n)
  \/ (exists c, selectByLowerName n s = [c] /\ c ∈ rows s
                /\ ckey (name (fields c)) = ckey n).
Proof.
  unfold selectByLowerName.
  destruct (List.filter _ (rows s)) as [|c l] eqn:E.
  - left. split; [reflexivity|]. intros r Hr Hk.
    assert (Hin : In r (List.filter
                          (fun r => sql_eq (lower (name (fields r))) (lower n))
                          (rows s))).
    { apply filter_In. split; [now apply list_elem_of_In|].
      rewrite sql_eq_lower. now apply sql_eq_true. }
    rewrite E in Hin. contradiction.
  - right. exists c. split; [reflexivity|].
    assert (Hin : In c (c :: l)) by now left.
    rewrite <- E in Hin. apply filter_In in Hin as [Hin Hf].
    split; [now apply list_elem_of_In|].
    rewrite sql_eq_lower in Hf. now apply sql_eq_true.
Qed.

(** X13.  In any table, a lookup answers either 404 or 200 with a row.  It
    answers 404 exactly when no row's name equals the requested one under
    the collation, and a row it returns is a row of the table whose name
    equals the requested one under the collation. *)
Theorem lookup_answers (w : World) (n : string) :
  (getCountry n w = country_not_found
   \/ exists r, getCountry n w = json 200 (JsonCountry r))
  /\ (getCountry n w = country_not_found <->
      forall r, r ∈ rows (db w) -> ckey (name (fields r)) <> ckey n)
  /\ (forall r, getCountry n w = json 200 (JsonCountry r) ->
      r ∈ rows (db w) /\ ckey (name (fields r)) = ckey n).
Proof.
  unfold getCountry.
  destruct (selectByLowerName_cases n (db w))
    as [[-> Hnone] | (c & -> & Hin & Hk)].
  - split; [now left|]. split; [tauto|]. discriminate.
  - split; [right; eauto|]. split.
    + split; [discriminate|]. intros H. now apply H in Hin.
    + intros r [= <-]. auto.
Qed.

(** X14.  In any table, a deletion answers 204 or 404, never 500.  When no
    row's name equals the requested one under the collation it answers 404
    and changes nothing.  Otherwise it answers 204, leaves the files
    alone, removes the rows of that name and no other, and the same
    deletion repeated answers 404. *)
Theorem delete_answers (w : World) (n : string) :
  let r := (deleteCountry n w).1 in
  let w' := (deleteCountry n w).2 in
  ((forall c, c ∈ rows (db w) -> ckey (name (fields c)) <> ckey n) ->
   r = country_not_found /\ w' = w)
  /\ ((exists c, c ∈ rows (db w) /\ ckey (name (fields c)) = ckey n) ->
      r = json 204 NoBody
      /\ files w' = files w
      /\ (forall c, c ∈ rows (db w') <->
            c ∈ rows (db w) /\ ckey (name (fields c)) <> ckey n)
      /\ deleteCountry n w' = (country_not_found, w')).
Proof.
  intros r w'. subst r w'.
  destruct (selectByLowerName_cases n (db w))
    as [[Hsel Hnone] | (c & Hsel & Hin & Hk)].
  - assert (Hdel : deleteCountry n w = (country_not_found, w))
      by (unfold deleteCountry; now rewrite Hsel).
    rewrite Hdel. split; [auto|]. intros (c & Hc & Hk). now apply Hnone in Hc.
  - set (kept := List.filter
                   (fun r => negb (sql_eq (name (fields r)) (name (fields c))))
                   (rows (db w))).
    assert (Hdel : deleteCountry n w
                   = (json 204 NoBody,
                      with_db w {| rows := kept; next_id := next_id (db w) |})).
    { unfold deleteCountry, deleteWhereName. rewrite Hsel.
      assert (Hex : existsb (fun r => sql_eq (name (fields r)) (name (fields c)))
                      (rows (db w)) = true).
      { apply existsb_exists. exists c.
        split; [now apply list_elem_of_In | now apply sql_eq_true]. }
      now rewrite Hex. }
    assert (Hrows : forall x,
              x ∈ kept <-> x ∈ rows (db w) /\ ckey (name (fields x)) <> ckey n).
    { intros x. unfold kept.
      rewrite list_elem_of_In, filter_In, <- list_elem_of_In.
      rewrite negb_true_iff, sql_eq_false, Hk. reflexivity. }
    rewrite Hdel. simpl.
    split; [intros H; now apply H in Hin|]. intros _.
    split; [reflexivity|]. split; [reflexivity|]. split; [exact Hrows|].
    unfold deleteCountry. rewrite selectByLowerName_none; [reflexivity|].
    simpl. intros x Hx. now apply Hrows in Hx.
Qed.

Lemma name_keys_remove (l1 l2 : list Country) (c : Country) :
  NoDup (name_keys (l1 ++ c :: l2)) -> NoDup (name_keys (l1 ++ l2)).
Proof.
  unfold name_keys. rewrite !map_app. simpl. intros H.
  apply NoDup_app in H as (H1 & H2 & H3).
  apply NoDup_cons in H3 as [_ H3].
  apply NoDup_app. split; [exact H1|]. split; [|exact H3].
  intros x Hx Hx2. apply (H2 x Hx). apply elem_of_cons. now right.
Qed.

(** X15.  In a table whose names are unique, a deletion spares every row
    whose name differs from the requested one under the collation: such a
    row is still returned by a lookup of its name afterwards.  When some
    row has the requested name, the number of rows goes down by exactly
    one. *)
Theorem delete_spares_other_rows (w : World) (n : string) :
  unique_names (db w) ->
  let w' := (deleteCountry n w).2 in
  (forall r', r' ∈ rows (db w) -> ckey (name (fields r')) <> ckey n ->
     getCountry (name (fields r')) w' = json 200 (JsonCountry r'))
  /\ ((exists c, c ∈ rows (db w) /\ ckey (name (fields c)) = ckey n) ->
      (count (db w') + 1)%nat = count (db w)).
Proof.
  intros Hu w'. subst w'.
  assert (Hfound : forall (s : Store) r', unique_names s -> r' ∈ rows s ->
            selectByLowerName (name (fields r')) s = [r']).
  { intros s r' Hs Hr'.
    destruct (list_elem_of_split _ _ Hr') as (k1 & k2 & Hsplit).
    now apply (selectByLowerName_found s k1 k2 r'). }
  unfold deleteCountry.
  destruct (selectByLowerName_cases n (db w))
    as [[-> Hnone] | (c & -> & Hin & Hk)].
  - split.
    + intros r' Hr' _. unfold getCountry. now rewrite Hfound.
    + intros (c & Hc & Hk). now apply Hnone in Hc.
  - destruct (list_elem_of_split _ _ Hin) as (l1 & l2 & Hsplit).
    rewrite (deleteWhereName_found _ l1 l2 c Hu Hsplit). simpl.
    split.
    + intros r' Hr' Hne. unfold getCountry. simpl. rewrite Hfound; [reflexivity| |].
      * unfold unique_names in *. simpl. rewrite Hsplit in Hu.
        now apply name_keys_remove in Hu.
      * simpl. rewrite Hsplit in Hr'.
        apply elem_of_app in Hr' as [Hr' | Hr']; apply elem_of_app; auto.
        apply elem_of_cons in Hr' as [-> | Hr']; [congruence | auto].
    + intros _. unfold count. simpl. rewrite Hsplit, !length_app. simpl. lia.
Qed.

(** ** Status after a refresh *)

Lemma refreshCountries_200 (up : Upstream) (w : World) :
  status (refreshCountries up w).1 = 200 ->
  exists cs rates,
    fetchCountries up = Some cs /\ fetchExchangeRates up = Some rates
    /\ db (refreshCountries up w).2
       = replaced (db w) (candidates rates (now up) (random up) 0 cs).
Proof.
  destruct (fetchCountries up) as [cs|] eqn:Hc.
  2:{ unfold refreshCountries. rewrite Hc. discriminate. }
  destruct (fetchExchangeRates up) as [rates|] eqn:Hr.
  2:{ unfold refreshCountries. rewrite Hc, Hr. discriminate. }
  destruct (candidates_valid_dec rates (now up) (random up) cs 0) as [Hall | Hbad].
  - rewrite (refreshCountries_validated up w cs rates Hc Hr Hall).
    destruct (forallb accepts _ && _)%bool; simpl; [|discriminate].
    intros _. eauto.
  - destruct (refreshCountries_invalid up w cs rates Hc Hr Hbad)
      as (response & Hs & ->). simpl. rewrite Hs. discriminate.
Qed.

(** X16.  After a refresh that answered 200, the status endpoint reports
    the number of fetched countries and the cycle's [now]; when the
    fetched list was empty it reports zero and a null timestamp. *)
Theorem status_after_refresh (up : Upstream) (w : World) :
  status (refreshCountries up w).1 = 200 ->
  exists cs,
    fetchCountries up = Some cs
    /\ getStatus (refreshCountries up w).2
       = json 200 (JsonStatus (length cs)
                     (match cs with [] => None | _ => Some (now up) end)).
Proof.
  intros H. apply refreshCountries_200 in H as (cs & rates & Hc & Hr & Hdb).
  exists cs. split; [exact Hc|]. unfold getStatus. rewrite Hdb.
  unfold count, replaced. cbn [rows].
  rewrite number_rows_length, candidates_length. do 2 f_equal.
  match goal with |- context [findFirst ?o ?s] =>
    pose proof (findFirst_latest s) as Hl; destruct (findFirst o s) as [r0|] end;
    simpl in *.
  - destruct Hl as [Hin _].
    pose proof (number_rows_stamp _ (now up)
                  (candidates_stamp rates (now up) (random up) cs 0)
                  (next_id (db w))) as Hst.
    rewrite Forall_forall in Hst. rewrite (Hst _ Hin).
    destruct cs; [now apply elem_of_nil in Hin | reflexivity].
  - destruct cs; [reflexivity | discriminate].
Qed.

(** ** The rows handed to the renderer *)


(** ** Names that differ only in case *)

(** X18.  The unique index on [name] compares under the collation of the
    table, which ignores case: when every candidate of a cycle passes the
    schema and two of them, at different positions, have names with the
    same lower-case form, the refresh answers 500 and the process state
    is what it was before. *)
Theorem case_variant_names_abort (up : Upstream) (w : World)
    (cs : list Raw.country) (rates : gmap string Q) (i j : nat)
    (a b : CountryCreateManyInput) :
  fetchCountries up = Some cs ->
  fetchExchangeRates up = Some rates ->
  let data := candidates rates (now up) (random up) 0 cs in
  Forall (fun d => valid_candidate (data_fields d)) data ->
  i <> j -> data !! i = Some a -> data !! j = Some b ->
  lower (name (data_fields a)) = lower (name (data_fields b)) ->
  refreshCountries up w = (internal_server_error, w).
Proof.
  intros Hc Hr data Hall Hij Ha Hb Hab.
  rewrite (refreshCountries_validated up w cs rates Hc Hr Hall). fold data.
  rewrite bool_decide_eq_false_2; [now rewrite andb_false_r|].
  intros Hnd. apply Hij.
  eapply (proj1 (NoDup_alt _) Hnd i j (ckey (name (data_fields a)))).
  - change (map ?f ?l) with (f <$> l). now rewrite list_lookup_fmap, Ha.
  - change (map ?f ?l) with (f <$> l). rewrite list_lookup_fmap, Hb. simpl.
    now rewrite <- (ckey_lower (name (data_fields b))), <- Hab, ckey_lower.
Qed.

End Engine.

(** * The properties on the sample data *)

Lemma lower_ascii_idempotent (c : ascii) :
  lower_ascii (lower_ascii c) = lower_ascii c.
Proof.
  destruct c as [[] [] [] [] [] [] [] []]; reflexivity.
Qed.

Lemma lower_idempotent (s : string) : ascii_collation (lower s) = ascii_collation s.
Proof.
  unfold ascii_collation. induction s as [|c s IH]; simpl; [reflexivity|].
  now rewrite lower_ascii_idempotent, IH.
Qed.

Lemma sample_refresh :
  refreshCountries ascii_collation accept_all render_to_tmp
    (sample_upstream [nigeria; ghana]) fresh_world
  = (json 200 (JsonMessage "Countries refreshed successfully"), stocked_world).
Proof. vm_compute. reflexivity. Qed.

Lemma stocked_world_unique : unique_names ascii_collation (db stocked_world).
Proof.
  unfold unique_names. apply (bool_decide_unpack _). vm_compute. exact I.
Qed.

(** ** The image route *)

(** C3.  [getImage] itself serves the primary file when it exists, the
    fallback file otherwise, and answers 404 when neither exists.  But
    the router hands [GET /countries/image] to [getCountry] with the name
    [image], because the route [/countries/:name] is registered before
    [/countries/image]: after a successful refresh that rendered the
    image, the request is answered 404 [Country not found]. *)
Theorem image_route_is_shadowed :
  (forall w content,
     files w !! tmpImagePath = Some content ->
     getImage w = json 200 (SentFile content))
  /\ (forall w content,
       files w !! tmpImagePath = None ->
       files w !! cacheImagePath w = Some content ->
       getImage w = json 200 (SentFile content))
  /\ (forall w,
       files w !! tmpImagePath = None -> files w !! cacheImagePath w = None ->
       getImage w = json 404 (JsonError "Summary image not found"))
  /\ (forall ckey accepts generateSummaryImage up q w,
       app ckey accepts generateSummaryImage up
         (get_request "/countries/image" q) w
       = (getCountry ckey "image" w, w))
  /\ refreshCountries ascii_collation accept_all render_to_tmp
       (sample_upstream [nigeria; ghana]) fresh_world
     = (json 200 (JsonMessage "Countries refreshed successfully"), stocked_world)
  /\ getImage stocked_world = json 200 (SentFile png_signature)
  /\ app ascii_collation accept_all render_to_tmp
       (sample_upstream [nigeria; ghana])
       (get_request "/countries/image" ∅) stocked_world
     = (json 404 (JsonError "Country not found"), stocked_world).
Proof.
  refine (conj _ (conj _ (conj _ (conj _ (conj _ (conj _ _)))))).
  - intros w content H. unfold getImage. now rewrite H.
  - intros w content H1 H2. unfold getImage. now rewrite H1, H2.
  - intros w H1 H2. unfold getImage. now rewrite H1, H2.
  - intros ckey accepts generateSummaryImage up q w.
    unfold app, get_request. rewrite resolve_router. reflexivity.
  - exact sample_refresh.
  - vm_compute. reflexivity.
  - vm_compute. reflexivity.
Qed.

(** ** The estimator on the sample data *)



(** C10 as the specification words it fails for a country whose currency
    code is the empty string, mapped to a zero rate: [estimated_gdp] is
    [0], not null. *)
Lemma zero_rate_as_specified_fails :
  ~ zero_rate_as_specified blank_rates (1 # 2)%Q blank_code_land.
Proof.
  intros H.
  destruct (H EmptyString 0%Q eq_refl eq_refl ltac:(reflexivity)) as [_ Hg].
  vm_compute in Hg. discriminate.
Qed.

Lemma zero_rate_is_absent_witness :
  currencyCode zero_rate_land = Some "ZZZ"
  /\ sample_rates !! "ZZZ" = Some 0%Q
  /\ (0 == 0)%Q
  /\ exchange_rate (processCountry sample_rates (1 # 2)%Q zero_rate_land) = None
  /\ estimated_gdp (processCountry sample_rates (1 # 2)%Q zero_rate_land) = None.
Proof.
  split; [reflexivity|]. split; [reflexivity|]. split; [reflexivity|].
  destruct (zero_rate_is_absent sample_rates (1 # 2)%Q zero_rate_land) as [H _].
  destruct (H "ZZZ" 0%Q) as [Hx Hg]; [reflexivity | reflexivity | reflexivity |].
  split; [exact Hx|]. apply Hg. discriminate.
Defined.

(** ** The refresh on the sample data *)

Ltac sample_valid :=
  cbn [candidates];
  repeat (apply List.Forall_cons;
          [cbn [data_fields]; apply parse_valid; vm_compute; reflexivity|]);
  apply List.Forall_nil.

Lemma validation_failure_aborts_witness :
  let up := sample_upstream [nigeria; negative_land; ghana] in
  let p := processCountry sample_rates (1 # 2)%Q negative_land in
  ~ valid_candidate p
  /\ refreshCountries ascii_collation accept_all render_to_tmp up stocked_world
     = (json 400 (JsonValidation "Validation failed for country data" "Minus"
                    (details_of (parse p))), stocked_world)
  /\ details_of (parse p) !! "population"
     = Some "Number must be greater than or equal to 0"
  /\ details_of (parse p) !! "name" = None.
Proof.
  intros up p.
  assert (Hbad : ~ valid_candidate p).
  { intros H. apply parse_valid in H. vm_compute in H. discriminate. }
  split; [exact Hbad|].
  destruct (validation_failure_aborts ascii_collation accept_all render_to_tmp
              up stocked_world sample_rates [nigeria] negative_land [ghana])
    as (_ & _ & Hresp & _ & _ & Hname & Hpop & _).
  - reflexivity.
  - reflexivity.
  - sample_valid.
  - exact Hbad.
  - split; [exact Hresp|]. split.
    + apply Hpop. change (population p) with (-1)%Q. unfold Qle. simpl. lia.
    + apply Hname. discriminate.
Defined.

Lemma successful_refresh_replaces_all_witness :
  let up := sample_upstream [nigeria; ghana] in
  let result := refreshCountries ascii_collation accept_all render_to_tmp
                  up fresh_world in
  status result.1 = 200
  /\ count (db result.2) = 2
  /\ Forall (fun r => last_refreshed_at r = sample_now) (rows (db result.2)).
Proof.
  intros up result.
  assert (Hs : status result.1 = 200) by (vm_compute; reflexivity).
  split; [exact Hs|].
  destruct (successful_refresh_replaces_all ascii_collation accept_all
              render_to_tmp up fresh_world result.2 result.1)
    as (cs & rates & Hcs & _ & _ & _ & _ & Hcount & Hlen & Hstamp).
  - apply surjective_pairing.
  - exact Hs.
  - injection Hcs as <-. split; [|exact Hstamp].
    rewrite Hcount, Hlen. reflexivity.
Defined.

Lemma duplicate_names_abort_witness :
  let up := sample_upstream [nigeria; ghana; nigeria] in
  Forall (fun d => valid_candidate (data_fields d))
         (candidates sample_rates (now up) (random up) 0 [nigeria; ghana; nigeria])
  /\ refreshCountries ascii_collation accept_all render_to_tmp up stocked_world
     = (internal_server_error, stocked_world)
  /\ unique_names ascii_collation
       (db (app ascii_collation accept_all render_to_tmp up
              (get_request "/countries" ∅) stocked_world).2).
Proof.
  intros up.
  assert (Hall : Forall (fun d => valid_candidate (data_fields d))
                   (candidates sample_rates (now up) (random up) 0
                      [nigeria; ghana; nigeria])) by sample_valid.
  split; [exact Hall|].
  destruct (duplicate_names_abort ascii_collation accept_all render_to_tmp)
    as (Hdup & _ & Hinv).
  split.
  - eapply (Hdup up stocked_world [nigeria; ghana; nigeria] sample_rates 0%nat 2%nat).
    + reflexivity.
    + reflexivity.
    + exact Hall.
    + discriminate.
    + reflexivity.
    + reflexivity.
    + reflexivity.
  - apply Hinv, stocked_world_unique.
Defined.

(** ** The endpoints on the sample data *)

Lemma rtrim_lower (s : string) : rtrim (lower s) = lower (rtrim s).
Proof.
  induction s as [|c s IH]; [reflexivity|].
  cbn [lower rtrim]. rewrite IH.
  assert (Hc : Ascii.eqb (lower_ascii c) " "%char = Ascii.eqb c " "%char)
    by (destruct c as [[] [] [] [] [] [] [] []]; reflexivity).
  assert (Hs : String.eqb (lower (rtrim s)) EmptyString
               = String.eqb (rtrim s) EmptyString)
    by (destruct (rtrim s); reflexivity).
  rewrite Hc, Hs.
  destruct (Ascii.eqb c " "%char && String.eqb (rtrim s) EmptyString)%bool;
    reflexivity.
Qed.

(** C7 as the specification words it fails for a collation that ignores
    more than case, as the one of the table does: [pad_space_collation]
    ignores case, and a lookup of [Nigeria] followed by a space, which is
    the name of no row whatever the case, answers 200 with the row of
    Nigeria. *)
Lemma lookup_as_specified_fails :
  (forall s, pad_space_collation (lower s) = pad_space_collation s)
  /\ decodeURIComponent "Nigeria%20" = Some "Nigeria "
  /\ (app pad_space_collation accept_all render_to_tmp (sample_upstream [])
        (get_request "/countries/Nigeria%20" ∅) stocked_world).1
     = json 200 (JsonCountry nigeria_row)
  /\ ~ lookup_as_specified pad_space_collation accept_all render_to_tmp
        (sample_upstream []) stocked_world "Nigeria%20" "Nigeria ".
Proof.
  split; [|split; [|split]].
  - intros s. unfold pad_space_collation.
    rewrite rtrim_lower. apply lower_idempotent.
  - vm_compute. reflexivity.
  - vm_compute. reflexivity.
  - intros H. unfold lookup_as_specified in H.
    assert (Hs : status
              (app pad_space_collation accept_all render_to_tmp
                 (sample_upstream [])
                 {| method := GET; url := "/countries/" +:+ "Nigeria%20";
                    query := ∅ |} stocked_world).1 = 404).
    { apply H; [vm_compute; reflexivity|].
      intros r Hr.
      apply elem_of_cons in Hr as [-> | Hr]; [vm_compute; discriminate|].
      apply list_elem_of_singleton in Hr as ->. vm_compute. discriminate. }
    vm_compute in Hs. discriminate.
Qed.

Lemma lookup_and_delete_ignore_case_witness :
  unique_names ascii_collation (db stocked_world)
  /\ nigeria_row ∈ rows (db stocked_world)
  /\ lower "nIgErIa" = lower (name (fields nigeria_row))
  /\ getCountry ascii_collation "nIgErIa" stocked_world
     = json 200 (JsonCountry nigeria_row)
  /\ getCountry ascii_collation "Togo" stocked_world = country_not_found
  /\ app ascii_collation accept_all render_to_tmp (sample_upstream [])
       (get_request "/countries/%6eigeria" ∅) stocked_world
     = (json 200 (JsonCountry nigeria_row), stocked_world).
Proof.
  assert (Hin : nigeria_row ∈ rows (db stocked_world))
    by (apply elem_of_cons; left; reflexivity).
  assert (Hn : lower "nIgErIa" = lower (name (fields nigeria_row)))
    by reflexivity.
  split; [exact stocked_world_unique|]. split; [exact Hin|].
  split; [exact Hn|].
  destruct (lookup_and_delete_ignore_case ascii_collation accept_all
              render_to_tmp lower_idempotent stocked_world stocked_world_unique)
    as (Hfound & Hmissing & Hroute & _).
  split; [|split].
  - exact (proj1 (Hfound nigeria_row "nIgErIa" Hin Hn)).
  - apply Hmissing. intros r Hr.
    apply elem_of_cons in Hr as [-> | Hr]; [vm_compute; discriminate|].
    apply list_elem_of_singleton in Hr as ->. vm_compute. discriminate.
  - destruct (Hroute (sample_upstream []) ∅ "%6eigeria" "nigeria")
      as [Hget _]; [discriminate | reflexivity | vm_compute; reflexivity|].
    change (get_request "/countries/%6eigeria" ∅)
      with {| method := GET; url := "/countries/" +:+ "%6eigeria";
              query := (∅ : gmap string QueryValue) |}.
    rewrite Hget.
    now rewrite (proj1 (Hfound nigeria_row "nigeria" Hin eq_refl)).
Defined.

(** C8 as the specification words it fails for a filter that is given and
    empty: [GET /countries?region=] lists every row, none of which has the
    empty region. *)
Lemma list_as_specified_fails :
  (app ascii_collation accept_all render_to_tmp (sample_upstream [])
     (get_request "/countries" {[ "region" := QString EmptyString ]})
     stocked_world).1
  = json 200 (JsonCountries [ghana_row; nigeria_row])
  /\ ~ list_as_specified ascii_collation accept_all render_to_tmp
        (sample_upstream []) stocked_world EmptyString.
Proof.
  assert (Hl : (app ascii_collation accept_all render_to_tmp (sample_upstream [])
                  (get_request "/countries" {[ "region" := QString EmptyString ]})
                  stocked_world).1
               = json 200 (JsonCountries [ghana_row; nigeria_row]))
    by (vm_compute; reflexivity).
  split; [exact Hl|].
  intros H.
  destruct (H [ghana_row; nigeria_row] nigeria_row Hl) as (c & Hc & Hk).
  - apply elem_of_cons. right. apply elem_of_cons. now left.
  - vm_compute in Hc. injection Hc as <-. vm_compute in Hk. discriminate.
Qed.

Lemma list_filters_and_orders_witness :
  let q : gmap string QueryValue :=
    {[ "region" := QString "Africa"; "sort" := QString "gdp_desc" ]} in
  let req := get_request "/countries" q in
  q !! "region" <> Some QNested /\ q !! "currency" <> Some QNested
  /\ q !! "sort" = Some (QString "gdp_desc")
  /\ exists l,
       getCountries ascii_collation req stocked_world = json 200 (JsonCountries l)
       /\ (forall r, r ∈ l <->
             r ∈ rows (db stocked_world) /\ row_matches ascii_collation q r)
       /\ in_order (fun a b => gdp_before (estimated_gdp (fields b))
                                          (estimated_gdp (fields a))) l.
Proof.
  intros q req.
  assert (Hr : q !! "region" <> Some QNested) by (vm_compute; discriminate).
  assert (Hc : q !! "currency" <> Some QNested) by (vm_compute; discriminate).
  assert (Hs : q !! "sort" = Some (QString "gdp_desc")) by reflexivity.
  split; [exact Hr|]. split; [exact Hc|]. split; [exact Hs|].
  destruct (list_filters_and_orders ascii_collation accept_all render_to_tmp
              (sample_upstream []) q stocked_world)
    as (_ & _ & Hlist).
  destruct (Hlist Hr Hc) as (l & rs & cs & Hl & _ & _ & Hmatch & Hdesc & _).
  exists l. split; [exact Hl|]. split; [exact Hmatch|]. exact (Hdesc Hs).
Defined.

Lemma status_reports_count_and_latest_witness :
  rows (db fresh_world) = []
  /\ app ascii_collation accept_all render_to_tmp (sample_upstream [])
       (get_request "/status" ∅) fresh_world
     = (json 200 (JsonStatus 0 None), fresh_world).
Proof.
  split; [reflexivity|].
  destruct (status_reports_count_and_latest ascii_collation accept_all
              render_to_tmp (sample_upstream []) fresh_world ∅)
    as (Happ & last & Hget & Hnil & _).
  unfold get_request. rewrite Happ, Hget, (Hnil eq_refl). reflexivity.
Defined.

(** * The further properties on the sample data *)

Lemma stocked_world_valid : rows_valid (db stocked_world).
Proof.
  unfold rows_valid. cbn [db rows stocked_world].
  repeat (apply List.Forall_cons;
          [apply parse_valid; vm_compute; reflexivity|]).
  apply List.Forall_nil.
Qed.

Lemma refresh_status_classification_witness :
  fetchCountries no_countries_upstream = None
  /\ status (refreshCountries ascii_collation accept_all render_to_tmp
               no_countries_upstream stocked_world).1 = 503.
Proof.
  split; [reflexivity|].
  apply (refresh_status_classification ascii_collation accept_all render_to_tmp
           no_countries_upstream stocked_world).
  left. reflexivity.
Defined.

Lemma refresh_all_or_nothing_witness :
  let result := refreshCountries ascii_collation accept_all render_to_tmp
                  (sample_upstream [nigeria; negative_land]) stocked_world in
  status result.1 = 400 /\ result.2 = stocked_world.
Proof.
  intros result.
  assert (Hs : status result.1 = 400) by (vm_compute; reflexivity).
  split; [exact Hs|].
  apply (refresh_all_or_nothing ascii_collation accept_all render_to_tmp
           (sample_upstream [nigeria; negative_land]) stocked_world).
  left. exact Hs.
Defined.

Lemma refresh_succeeds_witness :
  let up := sample_upstream [nigeria; ghana] in
  let data := candidates sample_rates (now up) (random up) 0 [nigeria; ghana] in
  Forall (fun d => valid_candidate (data_fields d)) data
  /\ forallb accept_all data = true
  /\ NoDup (map (fun d => ascii_collation (name (data_fields d))) data)
  /\ refreshCountries ascii_collation accept_all render_to_tmp up fresh_world
     = (json 200 (JsonMessage "Countries refreshed successfully"), stocked_world).
Proof.
  intros up data.
  assert (Hall : Forall (fun d => valid_candidate (data_fields d)) data)
    by (unfold data; sample_valid).
  assert (Hn : NoDup (map (fun d => ascii_collation (name (data_fields d))) data))
    by (apply (bool_decide_unpack _); vm_compute; exact I).
  split; [exact Hall|]. split; [reflexivity|]. split; [exact Hn|].
  destruct (refresh_succeeds ascii_collation accept_all render_to_tmp up
              fresh_world [nigeria; ghana] sample_rates eq_refl eq_refl
              Hall eq_refl Hn eq_refl) as [H _].
  rewrite H. vm_compute. reflexivity.
Defined.

Lemma render_failure_keeps_commit_witness :
  let up := sample_upstream [nigeria; ghana] in
  let data := candidates sample_rates (now up) (random up) 0 [nigeria; ghana] in
  Forall (fun d => valid_candidate (data_fields d)) data
  /\ refreshCountries ascii_collation accept_all render_fails up fresh_world
     = (internal_server_error,
        {| db := db stocked_world; files := ∅; cwd := "/app" |}).
Proof.
  intros up data.
  assert (Hall : Forall (fun d => valid_candidate (data_fields d)) data)
    by (unfold data; sample_valid).
  assert (Hn : NoDup (map (fun d => ascii_collation (name (data_fields d))) data))
    by (apply (bool_decide_unpack _); vm_compute; exact I).
  split; [exact Hall|].
  destruct (render_failure_keeps_commit ascii_collation accept_all render_fails
              up fresh_world [nigeria; ghana] sample_rates eq_refl eq_refl
              Hall eq_refl Hn eq_refl) as [H _].
  rewrite H. vm_compute. reflexivity.
Defined.

Lemma empty_list_wipes_table_witness :
  fetchCountries (sample_upstream []) = Some []
  /\ refreshCountries ascii_collation accept_all render_to_tmp
       (sample_upstream []) stocked_world
     = (json 200 (JsonMessage "Countries refreshed successfully"),
        {| db := {| rows := []; next_id := 3 |};
           files := files stocked_world; cwd := "/app" |}).
Proof.
  split; [reflexivity|].
  rewrite (empty_list_wipes_table ascii_collation accept_all render_to_tmp
             (sample_upstream []) stocked_world sample_rates eq_refl eq_refl).
  vm_compute. reflexivity.
Defined.

Lemma candidate_shape_witness :
  currency_code (processCountry sample_rates (1 # 2)%Q ghana) = Some "GHS"
  /\ exchange_rate (processCountry sample_rates (1 # 2)%Q ghana) = None
  /\ estimated_gdp (processCountry sample_rates (1 # 2)%Q ghana) = None.
Proof.
  split; [reflexivity|]. split; [reflexivity|].
  apply (candidate_shape sample_rates (1 # 2)%Q ghana).
  split; [|reflexivity]. exists "GHS". split; [reflexivity | discriminate].
Defined.

Lemma valid_candidate_gdp_nonnegative_witness :
  (0 <= 1 # 2)%Q
  /\ valid_candidate (processCountry sample_rates (1 # 2)%Q nigeria)
  /\ js_le (Num 0)
           (js_div (js_mul (Num 206139589) (randomMultiplier (1 # 2)))
                   (Num 1600)).
Proof.
  assert (H0 : (0 <= 1 # 2)%Q) by (unfold Qle; simpl; lia).
  assert (Hv : valid_candidate (processCountry sample_rates (1 # 2)%Q nigeria))
    by (apply parse_valid; vm_compute; reflexivity).
  split; [exact H0|]. split; [exact Hv|].
  apply (valid_candidate_gdp_nonnegative sample_rates (1 # 2)%Q nigeria H0 Hv).
  reflexivity.
Defined.

Lemma table_rows_stay_valid_witness :
  rows_valid (db stocked_world)
  /\ rows_valid
       (db (app ascii_collation accept_all render_to_tmp
              (sample_upstream [ghana; nigeria])
              (request POST "/countries/refresh") stocked_world).2).
Proof.
  split; [exact stocked_world_valid|].
  apply (table_rows_stay_valid ascii_collation accept_all render_to_tmp).
  exact stocked_world_valid.
Defined.

Lemma primary_keys_stay_fresh_witness :
  ids_fresh (db stocked_world)
  /\ ids_fresh
       (db (app ascii_collation accept_all render_to_tmp
              (sample_upstream [ghana; nigeria])
              (request POST "/countries/refresh") stocked_world).2).
Proof.
  assert (H : ids_fresh (db stocked_world)).
  { split.
    - apply (bool_decide_unpack _). vm_compute. exact I.
    - cbn [db rows stocked_world next_id].
      repeat (apply List.Forall_cons; [simpl; lia|]). apply List.Forall_nil. }
  split; [exact H|].
  apply (primary_keys_stay_fresh ascii_collation accept_all render_to_tmp).
  exact H.
Defined.

Lemma details_name_the_failed_fields_witness :
  let p := processCountry sample_rates (1 # 2)%Q constructor_land in
  exchange_rate p = Some (Inherited "constructor")
  /\ "constructor" <> "__proto__"
  /\ details_of (parse p) !! "exchange_rate"
     = Some "Expected number, received function".
Proof.
  intros p.
  assert (H : exchange_rate p = Some (Inherited "constructor")) by reflexivity.
  assert (Hk : "constructor" <> "__proto__") by discriminate.
  split; [exact H|]. split; [exact Hk|].
  destruct (details_name_the_failed_fields p)
    as (_ & _ & _ & _ & _ & _ & _ & _ & _ & _ & Hf & _).
  exact (Hf "constructor" H Hk).
Defined.

Lemma getImage_is_unreachable_witness :
  dispatch router (request GET "/countries/image")
  = Some (GetCountry, {[ "name" := "image" ]})
  /\ GetCountry <> GetImage.
Proof.
  assert (H : dispatch router (request GET "/countries/image")
              = Some (GetCountry, {[ "name" := "image" ]}))
    by (vm_compute; reflexivity).
  split; [exact H|].
  exact (getImage_is_unreachable _ _ _ H).
Defined.

Lemma unrouted_requests_get_404_witness :
  route_of (request POST "/status") = Unrouted
  /\ app ascii_collation accept_all render_to_tmp (sample_upstream [])
       (request POST "/status") stocked_world
     = (json 404 (JsonError "Route /status not found"), stocked_world).
Proof.
  assert (H : route_of (request POST "/status") = Unrouted) by reflexivity.
  split; [exact H|].
  destruct (unrouted_requests_get_404 ascii_collation accept_all render_to_tmp
              (sample_upstream []) (request POST "/status") stocked_world)
    as (_ & _ & Happ & _).
  rewrite (Happ H eq_refl). reflexivity.
Defined.

Lemma lookup_answers_witness :
  getCountry ascii_collation "GHANA" stocked_world = json 200 (JsonCountry ghana_row)
  /\ ghana_row ∈ rows (db stocked_world)
  /\ ascii_collation (name (fields ghana_row)) = ascii_collation "GHANA".
Proof.
  assert (H : getCountry ascii_collation "GHANA" stocked_world
              = json 200 (JsonCountry ghana_row)) by (vm_compute; reflexivity).
  split; [exact H|].
  apply (lookup_answers ascii_collation lower_idempotent stocked_world "GHANA").
  exact H.
Defined.

Lemma delete_answers_witness :
  (exists c, c ∈ rows (db stocked_world)
             /\ ascii_collation (name (fields c)) = ascii_collation "GHANA")
  /\ (deleteCountry ascii_collation "GHANA" stocked_world).1 = json 204 NoBody.
Proof.
  assert (H : exists c, c ∈ rows (db stocked_world)
                /\ ascii_collation (name (fields c)) = ascii_collation "GHANA").
  { exists ghana_row. split; [|reflexivity].
    apply elem_of_cons. right. apply elem_of_cons. now left. }
  split; [exact H|].
  apply (delete_answers ascii_collation lower_idempotent stocked_world "GHANA").
  exact H.
Defined.

Lemma delete_spares_other_rows_witness :
  unique_names ascii_collation (db stocked_world)
  /\ getCountry ascii_collation "Nigeria"
       (deleteCountry ascii_collation "GHANA" stocked_world).2
     = json 200 (JsonCountry nigeria_row).
Proof.
  split; [exact stocked_world_unique|].
  destruct (delete_spares_other_rows ascii_collation lower_idempotent
              stocked_world "GHANA" stocked_world_unique) as [H _].
  apply (H nigeria_row).
  - apply elem_of_cons. now left.
  - vm_compute. discriminate.
Defined.

Lemma status_after_refresh_witness :
  let result := refreshCountries ascii_collation accept_all render_to_tmp
                  (sample_upstream [nigeria; ghana]) fresh_world in
  status result.1 = 200
  /\ getStatus ascii_collation result.2
     = json 200 (JsonStatus 2 (Some sample_now)).
Proof.
  intros result.
  assert (Hs : status result.1 = 200) by (vm_compute; reflexivity).
  split; [exact Hs|].
  destruct (status_after_refresh ascii_collation accept_all render_to_tmp
              (sample_upstream [nigeria; ghana]) fresh_world Hs)
    as (cs & Hcs & Hst).
  injection Hcs as <-. exact Hst.
Defined.


Lemma case_variant_names_abort_witness :
  let up := sample_upstream [nigeria; shouting_nigeria] in
  let data := candidates sample_rates (now up) (random up) 0
                [nigeria; shouting_nigeria] in
  Forall (fun d => valid_candidate (data_fields d)) data
  /\ lower "Nigeria" = lower "NIGERIA"
  /\ refreshCountries ascii_collation accept_all render_to_tmp up stocked_world
     = (internal_server_error, stocked_world).
Proof.
  intros up data.
  assert (Hall : Forall (fun d => valid_candidate (data_fields d)) data)
    by (unfold data; sample_valid).
  split; [exact Hall|]. split; [reflexivity|].
  eapply (case_variant_names_abort ascii_collation accept_all render_to_tmp
            lower_idempotent up stocked_world [nigeria; shouting_nigeria]
            sample_rates 0%nat 1%nat).
  - reflexivity.
  - reflexivity.
  - exact Hall.
  - discriminate.
  - reflexivity.
  - reflexivity.
  - reflexivity.
Defined.
